(** * Joistor: a schema-validated state container with undo/redo

    Shallow embedding of [Joistor] (the store factory of the repository, the
    version with [onError], [onRegister] and [onUnregister]) and the
    properties its specification states about it.

    Conventions of the embedding.

    - JavaScript values are the trees of [Value].  Numbers are integers, an
      array hole is [VUndef] (it reads as [undefined] and is serialised as
      [null], like [undefined]), an object is the list of its own enumerable
      properties in insertion order.  Property names are plain strings for
      objects and indices for arrays ([Key]); an object is never given an
      index-like name and field names do not collide with the names
      inherited from [Object.prototype].
    - The live state is tree shaped: no object is reachable from two places,
      and a proxy is used as soon as it is obtained ([state.a.b.c = v]), so
      an assignment through a proxy is an update of the tree at a path.
    - A validation rule is an opaque function of the value it is given (the
      external rule engine).  The engine reads the value it checks; when it
      is handed the state proxy these reads go through the getters, so a
      [null] in the value makes the check throw.  Callbacks are opaque too,
      each invocation is recorded in the trace of [Event]s, and a callback
      does not write to the store while it runs.
    - Every operation is a computation in the monad [M]: it transforms the
      [Store], emits events and either returns or throws. *)

From Stdlib Require Import List String ZArith Lia Bool Arith.
Import ListNotations.

(** ** JavaScript values *)

Inductive Key : Type :=
| KStr (s : string)
| KIdx (i : nat).

#[warnings="-register-all"]
Inductive Value : Type :=
| VUndef
| VNull
| VBool (b : bool)
| VNum (n : Z)
| VStr (s : string)
| VArr (items : list Value)
| VObj (props : list (string * Value)).

Definition Key_eqb (a b : Key) : bool :=
  match a, b with
  | KStr x, KStr y => String.eqb x y
  | KIdx i, KIdx j => Nat.eqb i j
  | _, _ => false
  end.

(** [if (v)]: the falsy values are [undefined], [null], [false], [0] and
    the empty string. *)
Definition truthy (v : Value) : bool :=
  match v with
  | VUndef | VNull => false
  | VBool b => b
  | VNum n => negb (Z.eqb n 0)
  | VStr s => negb (String.eqb s EmptyString)
  | VArr _ | VObj _ => true
  end.

(** [Array.isArray(v) || typeof v === "object"]: arrays, objects and
    [null]. *)
Definition typeof_object (v : Value) : bool :=
  match v with
  | VNull | VArr _ | VObj _ => true
  | _ => false
  end.

(** ** Objects as insertion-ordered property lists *)

Definition Obj (A : Type) : Type := list (string * A).

(** [o\[k\]]; [None] is [undefined]. *)
Fixpoint obj_get {A} (o : Obj A) (k : string) : option A :=
  match o with
  | [] => None
  | (k', v) :: rest => if String.eqb k' k then Some v else obj_get rest k
  end.

(** [o\[k\] = v]: an existing property keeps its place, a new one is
    appended. *)
Fixpoint obj_set {A} (o : Obj A) (k : string) (v : A) : Obj A :=
  match o with
  | [] => [(k, v)]
  | (k', v') :: rest =>
      if String.eqb k' k then (k', v) :: rest else (k', v') :: obj_set rest k v
  end.

(** [delete o\[k\]]. *)
Fixpoint obj_delete {A} (o : Obj A) (k : string) : Obj A :=
  match o with
  | [] => []
  | (k', v') :: rest =>
      if String.eqb k' k then obj_delete rest k else (k', v') :: obj_delete rest k
  end.

(** [Object.keys(o)]. *)
Definition obj_keys {A} (o : Obj A) : list string := map fst o.

(** [keys.includes(k)]. *)
Definition includes (keys : list string) (k : string) : bool :=
  existsb (String.eqb k) keys.

Definition or_undefined (o : option Value) : Value :=
  match o with Some v => v | None => VUndef end.

(** [a\[i\] = v] on an array: writing past the end extends the array, the
    skipped positions are holes. *)
Definition arr_set (l : list Value) (i : nat) (v : Value) : list Value :=
  if Nat.ltb i (List.length l)
  then firstn i l ++ v :: skipn (S i) l
  else l ++ repeat VUndef (i - List.length l) ++ [v].

(** [obj\[k\]] on a value. *)
Definition prop_get (obj : Value) (k : Key) : Value :=
  match obj, k with
  | VObj props, KStr s => or_undefined (obj_get props s)
  | VArr items, KIdx i => nth i items VUndef
  | _, _ => VUndef
  end.

(** [obj\[k\] = v] on a value; [None] when the assignment is outside the
    embedding (an index-like name on an object, a name on an array). *)
Definition prop_set (obj : Value) (k : Key) (v : Value) : option Value :=
  match obj, k with
  | VObj props, KStr s => Some (VObj (obj_set props s v))
  | VArr items, KIdx i => Some (VArr (arr_set items i v))
  | _, _ => None
  end.

(** The value of a field after [obj\[k\] = v], where [obj] is the container
    reached from the field's value along [path]. *)
Fixpoint update_at (root : Value) (path : list Key) (k : Key) (v : Value)
  : option Value :=
  match path with
  | [] => prop_set root k v
  | j :: rest =>
      match update_at (prop_get root j) rest k v with
      | Some child => prop_set root j child
      | None => None
      end
  end.

(** ** Exceptions *)

Inductive Exn : Type :=
| TypeError
| FieldsNotSame   (* Error("New state fields are not the same as old state fields") *)
| OutsideModel.   (* an assignment [prop_set] does not describe *)

(** ** Reading through the proxies *)

(** [stateFields(obj)]: the property names of [obj] and of every object
    nested in it. *)
Fixpoint stateFields (v : Value) : list Key :=
  match v with
  | VObj props =>
      map (fun kv => KStr (fst kv)) props
        ++ flat_map (fun kv => stateFields (snd kv)) props
  | VArr items =>
      map KIdx (seq 0 (List.length items)) ++ flat_map stateFields items
  | _ => []
  end.

(** [new Proxy(target, handler)] throws when the target is not an object;
    the proxy is a view of its target, so the result is the target. *)
Definition new_Proxy (target : Value) : Exn + Value :=
  match target with
  | VArr _ | VObj _ => inr target
  | _ => inl TypeError
  end.

(** What both getters do with the property value they found:
    [if (Array.isArray(v) || typeof v === "object") return new Proxy(v, ...);
    return v]. *)
Definition wrap (v : Value) : Exn + Value :=
  if typeof_object v then new_Proxy v else inr v.

(** [stateRegisterProxyGetter(obj, prop)] *)
Definition stateRegisterProxyGetter (obj : Obj Value) (prop : string)
  : Exn + Value :=
  let props := stateFields (VObj obj) in
  if negb (existsb (Key_eqb (KStr prop)) props) then inr VUndef
  else wrap (or_undefined (obj_get obj prop)).

(** [stateFieldProxyGetter(obj, prop)] *)
Definition stateFieldProxyGetter (obj : Value) (prop : Key) : Exn + Value :=
  wrap (prop_get obj prop).

(** The container a chain of property reads [field.k1.k2...] arrives at.
    Each read goes through [stateFieldProxyGetter]; reading a property of
    [undefined], or assigning one on a primitive, is a [TypeError] of the
    caller's expression. *)
Fixpoint navigate (v : Value) (path : list Key) : Exn + Value :=
  match v with
  | VObj _ | VArr _ =>
      match path with
      | [] => inr v
      | k :: rest =>
          match stateFieldProxyGetter v k with
          | inl e => inl e
          | inr child => navigate child rest
          end
      end
  | _ => inl TypeError
  end.

(** ** [JSON.parse(JSON.stringify(state))]

    [JSON.stringify] reads every property through the proxies' getters, so
    a [null] anywhere makes it throw.  A property whose value is
    [undefined] is left out of an object and becomes [null] in an array. *)

Section JsonCopy.
Variable copy : Value -> Exn + option Value.

Fixpoint copy_items (l : list Value) : Exn + list Value :=
  match l with
  | [] => inr []
  | x :: rest =>
      match copy x with
      | inl e => inl e
      | inr ox =>
          match copy_items rest with
          | inl e => inl e
          | inr rest' =>
              inr (match ox with Some y => y | None => VNull end :: rest')
          end
      end
  end.

Fixpoint copy_props (l : Obj Value) : Exn + Obj Value :=
  match l with
  | [] => inr []
  | (k, x) :: rest =>
      match copy x with
      | inl e => inl e
      | inr ox =>
          match copy_props rest with
          | inl e => inl e
          | inr rest' =>
              inr (match ox with Some y => (k, y) :: rest' | None => rest' end)
          end
      end
  end.
End JsonCopy.

(** The copy of one value read through a getter; [None] is [undefined]
    (nothing is written for it). *)
Fixpoint json_copy (v : Value) : Exn + option Value :=
  match v with
  | VUndef => inr None
  | VNull => inl TypeError
  | VBool _ | VNum _ | VStr _ => inr (Some v)
  | VArr items =>
      match copy_items json_copy items with
      | inl e => inl e
      | inr items' => inr (Some (VArr items'))
      end
  | VObj props =>
      match copy_props json_copy props with
      | inl e => inl e
      | inr props' => inr (Some (VObj props'))
      end
  end.

Definition Snapshot : Type := Obj Value.

(** [JSON.parse(JSON.stringify(state))] on the state proxy. *)
Definition JSON_copy_state (st : Obj Value) : Exn + Snapshot :=
  copy_props json_copy st.

(** A value with no [null] in it. *)
Fixpoint has_null (v : Value) : bool :=
  match v with
  | VNull => true
  | VArr items => existsb has_null items
  | VObj props => existsb (fun kv => has_null (snd kv)) props
  | _ => false
  end.

(** A value that is JSON data the store can copy: neither [undefined] nor
    [null] occurs in it. *)
Fixpoint json_clean (v : Value) : bool :=
  match v with
  | VUndef | VNull => false
  | VArr items => forallb json_clean items
  | VObj props => forallb (fun kv => json_clean (snd kv)) props
  | _ => true
  end.

(** A value that JSON can express: [undefined] does not occur in it. *)
Fixpoint json_data (v : Value) : bool :=
  match v with
  | VUndef => false
  | VArr items => forallb json_data items
  | VObj props => forallb (fun kv => json_data (snd kv)) props
  | _ => true
  end.

Definition clean_obj (o : Obj Value) : bool :=
  forallb (fun kv => json_clean (snd kv)) o.

(** ** The rule engine, callbacks and events *)

Definition ErrorDetail : Type := string.

(** A rule handle: [rule_validate strict v] is [schema.strict().validate(v)]
    when [strict], [schema.validate(v)] otherwise, and yields the [error] of
    the result ([None] when the value is accepted). *)
Record Rule : Type := {
  rule_validate : bool -> Value -> option ErrorDetail
}.

Definition CbId : Type := nat.

(** The entries of [onErrorCallbacks]: the logger installed by [Joistor]
    and the callbacks added by [onError]. *)
Inductive ErrorCallback : Type :=
| DefaultLogger
| UserError (cb : CbId).

Inductive Event : Type :=
| EvConsoleLog (msg : string)
| EvValidate (field : string) (strict : bool) (v : Value)
| EvChange (cb : CbId) (baseProp : string) (fieldValue : Value)
           (prop : option Key) (value : option Value)
| EvError (cb : CbId) (error : ErrorDetail)
| EvRegister (cb : CbId)
| EvUnregister (cb : CbId).

(** ** The store *)

(** [opts]; a key that is not given is [undefined]: [None] for
    [historyBuffer], falsy for the two flags. *)
Record Opts : Type := {
  historyBuffer : option Z;
  strict : bool;
  errorLog : bool
}.

Record Store : Type := {
  opts : Opts;
  updateHistory : bool;
  schema : Obj (option Rule);
  state : Obj Value;                 (* the target of the state proxy *)
  history_undo : list Snapshot;      (* history.undo, oldest first *)
  history_redo : list Snapshot;      (* history.redo, oldest first *)
  onRegisterCallbacks : list CbId;
  onUnregisterCallbacks : list CbId;
  onChangeCallbacks : Obj (list CbId);
  onErrorCallbacks : list ErrorCallback
}.

Definition default_opts : Opts :=
  {| historyBuffer := Some 20%Z; strict := false; errorLog := true |}.

(** [Joistor(opts)]; [None] is the call without an argument, for which the
    default parameter value is used. *)
Definition Joistor (arg : option Opts) : Store :=
  {| opts := match arg with Some o => o | None => default_opts end;
     updateHistory := false;
     schema := [];
     state := [];
     history_undo := [];
     history_redo := [];
     onRegisterCallbacks := [];
     onUnregisterCallbacks := [];
     onChangeCallbacks := [];
     onErrorCallbacks := [DefaultLogger] |}.

Definition with_updateHistory (b : bool) (s : Store) : Store :=
  {| opts := opts s; updateHistory := b; schema := schema s; state := state s;
     history_undo := history_undo s; history_redo := history_redo s;
     onRegisterCallbacks := onRegisterCallbacks s;
     onUnregisterCallbacks := onUnregisterCallbacks s;
     onChangeCallbacks := onChangeCallbacks s;
     onErrorCallbacks := onErrorCallbacks s |}.

Definition with_schema (x : Obj (option Rule)) (s : Store) : Store :=
  {| opts := opts s; updateHistory := updateHistory s; schema := x;
     state := state s;
     history_undo := history_undo s; history_redo := history_redo s;
     onRegisterCallbacks := onRegisterCallbacks s;
     onUnregisterCallbacks := onUnregisterCallbacks s;
     onChangeCallbacks := onChangeCallbacks s;
     onErrorCallbacks := onErrorCallbacks s |}.

Definition with_state (x : Obj Value) (s : Store) : Store :=
  {| opts := opts s; updateHistory := updateHistory s; schema := schema s;
     state := x;
     history_undo := history_undo s; history_redo := history_redo s;
     onRegisterCallbacks := onRegisterCallbacks s;
     onUnregisterCallbacks := onUnregisterCallbacks s;
     onChangeCallbacks := onChangeCallbacks s;
     onErrorCallbacks := onErrorCallbacks s |}.

Definition with_undo (x : list Snapshot) (s : Store) : Store :=
  {| opts := opts s; updateHistory := updateHistory s; schema := schema s;
     state := state s;
     history_undo := x; history_redo := history_redo s;
     onRegisterCallbacks := onRegisterCallbacks s;
     onUnregisterCallbacks := onUnregisterCallbacks s;
     onChangeCallbacks := onChangeCallbacks s;
     onErrorCallbacks := onErrorCallbacks s |}.

Definition with_redo (x : list Snapshot) (s : Store) : Store :=
  {| opts := opts s; updateHistory := updateHistory s; schema := schema s;
     state := state s;
     history_undo := history_undo s; history_redo := x;
     onRegisterCallbacks := onRegisterCallbacks s;
     onUnregisterCallbacks := onUnregisterCallbacks s;
     onChangeCallbacks := onChangeCallbacks s;
     onErrorCallbacks := onErrorCallbacks s |}.

Definition with_callbacks (r u : list CbId) (c : Obj (list CbId))
           (e : list ErrorCallback) (s : Store) : Store :=
  {| opts := opts s; updateHistory := updateHistory s; schema := schema s;
     state := state s;
     history_undo := history_undo s; history_redo := history_redo s;
     onRegisterCallbacks := r;
     onUnregisterCallbacks := u;
     onChangeCallbacks := c;
     onErrorCallbacks := e |}.

(** ** The monad of store operations *)

Definition Run (A : Type) : Type := (Store * list Event * (Exn + A))%type.

Definition M (A : Type) : Type := Store -> Run A.

Definition ret {A} (a : A) : M A := fun s => (s, [], inr a).

Definition throw {A} (e : Exn) : M A := fun s => (s, [], inl e).

Definition bind {A B} (m : M A) (k : A -> M B) : M B :=
  fun s =>
    match m s with
    | (s1, l1, inl e) => (s1, l1, inl e)
    | (s1, l1, inr a) =>
        match k a s1 with
        | (s2, l2, r) => (s2, l1 ++ l2, r)
        end
    end.

Definition get : M Store := fun s => (s, [], inr s).

Definition modify (f : Store -> Store) : M unit := fun s => (f s, [], inr tt).

Definition emit (e : Event) : M unit := fun s => (s, [e], inr tt).

Definition lift {A} (r : Exn + A) : M A := fun s => (s, [], r).

Declare Scope store_scope.
Delimit Scope store_scope with store.
Notation "x <- m ;; k" := (bind m (fun x => k))
  (at level 61, m at next level, right associativity) : store_scope.
Notation "m ;; k" := (bind m (fun _ => k))
  (at level 61, right associativity) : store_scope.
Open Scope store_scope.

(** [xs.forEach(f)] *)
Fixpoint forEach {A} (xs : list A) (f : A -> M unit) : M unit :=
  match xs with
  | [] => ret tt
  | x :: rest => f x ;; forEach rest f
  end.

(** The three parts of a run. *)
Definition store_of {A} (r : Run A) : Store := fst (fst r).
Definition events_of {A} (r : Run A) : list Event := snd (fst r).
Definition result_of {A} (r : Run A) : Exn + A := snd r.

(** The store an operation leaves behind, whether it returned or threw. *)
Definition exec {A} (m : M A) (s : Store) : Store := store_of (m s).

(** ** The operations of [Joistor] *)

(** The argument of [updateUndoHistory] and [updateRedoHistory]: called
    with the state proxy or with nothing (the default parameter [{}]). *)
Inductive CopyArg : Type :=
| NoArg
| TheState.

(** [history.undo.push(x); if (history.undo.length > opts.historyBuffer)
    history.undo.shift()]; the comparison with [undefined] is false. *)
Definition push_bounded (hb : option Z) (l : list Snapshot) (x : Snapshot)
  : list Snapshot :=
  let l' := l ++ [x] in
  match hb with
  | Some n => if Z.gtb (Z.of_nat (List.length l')) n then tl l' else l'
  | None => l'
  end.

(** [JSON.parse(JSON.stringify(obj))], the first line of
    [updateUndoHistory] and of [updateRedoHistory]. *)
Definition copy_arg (a : CopyArg) : M Snapshot :=
  match a with
  | NoArg => ret []
  | TheState => s <- get ;; lift (JSON_copy_state (state s))
  end.

(** [updateUndoHistory(obj)]: the object captured by the closures it
    returns. *)
Definition updateUndoHistory (a : CopyArg) : M Snapshot := copy_arg a.

(** [updateRedoHistory(obj)] *)
Definition updateRedoHistory (a : CopyArg) : M Snapshot := copy_arg a.

(** The closure [addUndo] of [updateUndoHistory(obj)]. *)
Definition addUndo (undoObj : Snapshot) : M unit :=
  s <- get ;;
  if negb (updateHistory s) then ret tt
  else modify (with_undo
                 (push_bounded (historyBuffer (opts s)) (history_undo s) undoObj)).

(** The closure [addRedo] of [updateRedoHistory(obj)]. *)
Definition addRedo (redoObj : Snapshot) : M unit :=
  s <- get ;;
  if negb (updateHistory s) then ret tt
  else modify (with_redo
                 (push_bounded (historyBuffer (opts s)) (history_redo s) redoObj)).

(** The closure [clearRedo]. *)
Definition clearRedo : M unit :=
  s <- get ;;
  if negb (updateHistory s) then ret tt else modify (with_redo []).

(** [history.undo.pop()]; [None] is [undefined]. *)
Definition pop_undo : M (option Snapshot) :=
  s <- get ;;
  modify (with_undo (removelast (history_undo s))) ;;
  ret (last (map Some (history_undo s)) None).

(** The closure [removeRedo]: [history.redo.pop()]. *)
Definition removeRedo : M (option Snapshot) :=
  s <- get ;;
  modify (with_redo (removelast (history_redo s))) ;;
  ret (last (map Some (history_redo s)) None).

(** [executeRegisterCallbacks()] *)
Definition executeRegisterCallbacks : M unit :=
  s <- get ;;
  forEach (onRegisterCallbacks s) (fun cb => emit (EvRegister cb)).

(** [executeUnregisterCallbacks()] *)
Definition executeUnregisterCallbacks : M unit :=
  s <- get ;;
  forEach (onUnregisterCallbacks s) (fun cb => emit (EvUnregister cb)).

(** [executeChangeCallbacks(baseProp, prop, value)]; each call evaluates
    [state\[baseProp\]] through the getter of the state proxy. *)
Definition executeChangeCallbacks (baseProp : string) (prop : option Key)
           (value : option Value) : M unit :=
  s <- get ;;
  match obj_get (onChangeCallbacks s) baseProp with
  | Some cbs =>
      forEach cbs (fun cb =>
        s' <- get ;;
        fieldValue <- lift (stateRegisterProxyGetter (state s') baseProp) ;;
        emit (EvChange cb baseProp fieldValue prop value))
  | None => ret tt
  end.

(** [executeValidationErrorCallbacks(error)]; the first callback is the
    logger, which prints when [opts.errorLog] is set. *)
Definition executeValidationErrorCallbacks (error : ErrorDetail) : M unit :=
  s <- get ;;
  forEach (onErrorCallbacks s) (fun cb =>
    match cb with
    | DefaultLogger =>
        if errorLog (opts s) then emit (EvConsoleLog error) else ret tt
    | UserError c => emit (EvError c error)
    end).

(** How [validate] is given the state: the target object itself (the
    setter of the state proxy passes [obj]) or the state proxy (the setter
    of a field proxy passes [state]). *)
Inductive View : Type :=
| Target
| Proxied.

(** The argument [obj\[field\]] of the rule engine.  With the target the
    engine gets the value itself.  With the state proxy, [state\[field\]]
    is read by [stateRegisterProxyGetter] and the engine reads the rest of
    the value through [stateFieldProxyGetter], which throws on a [null]. *)
Definition validate_argument (view : View) (st : Obj Value) (field : string)
  : Exn + Value :=
  match view with
  | Target => inr (or_undefined (obj_get st field))
  | Proxied =>
      match stateRegisterProxyGetter st field with
      | inl e => inl e
      | inr v => if has_null v then inl TypeError else inr v
      end
  end.

(** [validate(obj, field)]: [None] is the [undefined] returned when the
    field has no schema, [Some valid] the result of the rule engine with
    its [error]. *)
Definition validate (view : View) (field : string)
  : M (option (option ErrorDetail)) :=
  s <- get ;;
  match obj_get (schema s) field with
  | Some (Some rule) =>
      v <- lift (validate_argument view (state s) field) ;;
      emit (EvValidate field (strict (opts s)) v) ;;
      let valid := rule_validate rule (strict (opts s)) v in
      match valid with
      | Some error => executeValidationErrorCallbacks error
      | None => ret tt
      end ;;
      ret (Some valid)
  | _ =>
      emit (EvConsoleLog ("No schema for " ++ field)%string) ;;
      ret None
  end.

(** [stateRegisterProxySetter(obj, prop, value)], the [set] trap of the
    state proxy: [state\[prop\] = value]. *)
Definition stateRegisterProxySetter (prop : string) (value : Value) : M unit :=
  undoObj <- updateUndoHistory TheState ;;
  _ <- updateRedoHistory NoArg ;;
  s <- get ;;
  let oldValue := or_undefined (obj_get (state s) prop) in
  modify (with_state (obj_set (state s) prop value)) ;;
  valid <- validate Target prop ;;
  match valid with
  | None => throw TypeError           (* const { error } = undefined *)
  | Some (Some _) =>
      s' <- get ;;
      if truthy oldValue
      then modify (with_state (obj_set (state s') prop oldValue))
      else modify (with_state (obj_delete (state s') prop))
  | Some None =>
      addUndo undoObj ;;
      clearRedo ;;
      executeChangeCallbacks prop None None
  end.

(** [stateFieldProxySetter(obj, prop, value)], the [set] trap of a field
    proxy created for [baseProp]; [obj] is the container reached from
    [state\[baseProp\]] along [path]. *)
Definition stateFieldProxySetter (baseProp : string) (path : list Key)
           (prop : Key) (value : Value) : M unit :=
  undoObj <- updateUndoHistory TheState ;;
  _ <- updateRedoHistory NoArg ;;
  s <- get ;;
  let root := or_undefined (obj_get (state s) baseProp) in
  obj <- lift (navigate root path) ;;
  let oldValue := prop_get obj prop in
  match update_at root path prop value with
  | None => throw OutsideModel
  | Some root' =>
      modify (with_state (obj_set (state s) baseProp root')) ;;
      valid <- validate Proxied baseProp ;;
      match valid with
      | None => throw TypeError       (* const { error } = undefined *)
      | Some (Some _) =>
          s' <- get ;;
          match update_at root' path prop oldValue with
          | Some root'' =>
              modify (with_state (obj_set (state s') baseProp root''))
          | None => throw OutsideModel
          end
      | Some None =>
          addUndo undoObj ;;
          clearRedo ;;
          executeChangeCallbacks baseProp (Some prop) (Some value)
      end
  end.

(** [updateUndoRedoState(newState)] *)
Definition updateUndoRedoState (newState : Snapshot) : M unit :=
  s <- get ;;
  let oldStateFields := obj_keys (state s) in
  let newStateFields := obj_keys newState in
  let fieldsAreTheSame := forallb (includes newStateFields) oldStateFields in
  if negb fieldsAreTheSame then throw FieldsNotSame
  else
    forEach newStateFields (fun field =>
      modify (with_updateHistory false) ;;
      stateRegisterProxySetter field (or_undefined (obj_get newState field))) ;;
    modify (with_updateHistory true).

(** [register(schemaObj, stateObj)] *)
Definition register (schemaObj : Obj Rule) (stateObj : Obj Value) : M unit :=
  modify (with_updateHistory false) ;;
  let field := match obj_keys schemaObj with
               | f :: _ => f
               | [] => "undefined"%string
               end in
  s <- get ;;
  modify (with_schema (obj_set (schema s) field (obj_get schemaObj field))) ;;
  stateRegisterProxySetter field (or_undefined (obj_get stateObj field)) ;;
  modify (with_updateHistory true) ;;
  executeRegisterCallbacks.

(** [unregister(field)]; [delete state\[field\]] reaches the target, the
    proxy has no trap for it. *)
Definition unregister (field : string) : M unit :=
  s <- get ;;
  modify (with_schema (obj_delete (schema s) field)) ;;
  s' <- get ;;
  modify (with_state (obj_delete (state s') field)) ;;
  executeUnregisterCallbacks.

(** [onRegister(callback)] *)
Definition onRegister (cb : CbId) : M unit :=
  modify (fun s => with_callbacks (onRegisterCallbacks s ++ [cb])
                     (onUnregisterCallbacks s) (onChangeCallbacks s)
                     (onErrorCallbacks s) s).

(** [onUnregister(callback)] *)
Definition onUnregister (cb : CbId) : M unit :=
  modify (fun s => with_callbacks (onRegisterCallbacks s)
                     (onUnregisterCallbacks s ++ [cb]) (onChangeCallbacks s)
                     (onErrorCallbacks s) s).

(** [onChange(path, callback)] *)
Definition onChange (path : string) (cb : CbId) : M unit :=
  modify (fun s =>
    let cbs := match obj_get (onChangeCallbacks s) path with
               | Some l => l
               | None => []
               end in
    with_callbacks (onRegisterCallbacks s) (onUnregisterCallbacks s)
      (obj_set (onChangeCallbacks s) path (cbs ++ [cb]))
      (onErrorCallbacks s) s).

(** [onError(callback)] *)
Definition onError (cb : CbId) : M unit :=
  modify (fun s => with_callbacks (onRegisterCallbacks s)
                     (onUnregisterCallbacks s) (onChangeCallbacks s)
                     (onErrorCallbacks s ++ [UserError cb]) s).

(** [undo()] *)
Definition undo : M unit :=
  s <- get ;;
  if Nat.eqb (List.length (history_undo s)) 0 then ret tt
  else
    _ <- updateUndoHistory NoArg ;;
    redoObj <- updateRedoHistory TheState ;;
    prevState <- pop_undo ;;
    addRedo redoObj ;;
    match prevState with
    | Some newState => updateUndoRedoState newState
    | None => throw TypeError
    end.

(** [redo()] *)
Definition redo : M unit :=
  s <- get ;;
  if Nat.eqb (List.length (history_redo s)) 0 then ret tt
  else
    _ <- updateRedoHistory NoArg ;;
    undoObj <- updateUndoHistory TheState ;;
    nextState <- removeRedo ;;
    addUndo undoObj ;;
    match nextState with
    | Some newState => updateUndoRedoState newState
    | None => throw TypeError
    end.

(** ** Writes and operation sequences *)

(** An assignment made by a client: [state\[prop\] = value], or
    [state\[baseProp\].k1...kn\[prop\] = value] with [path = \[k1; ...; kn\]].
    The reads that lead to the container of a nested assignment happen
    before the setter runs. *)
Inductive Write : Type :=
| WTop (prop : string) (value : Value)
| WNested (baseProp : string) (path : list Key) (prop : Key) (value : Value).

Definition write (w : Write) : M unit :=
  match w with
  | WTop prop value => stateRegisterProxySetter prop value
  | WNested baseProp path prop value =>
      s <- get ;;
      root <- lift (stateRegisterProxyGetter (state s) baseProp) ;;
      _ <- lift (navigate root path) ;;
      stateFieldProxySetter baseProp path prop value
  end.

(** The public operations. *)
Inductive Op : Type :=
| OpRegister (schemaObj : Obj Rule) (stateObj : Obj Value)
| OpUnregister (field : string)
| OpWrite (w : Write)
| OpUndo
| OpRedo
| OpOnChange (path : string) (cb : CbId)
| OpOnError (cb : CbId)
| OpOnRegister (cb : CbId)
| OpOnUnregister (cb : CbId).

Definition run_op (o : Op) : M unit :=
  match o with
  | OpRegister schemaObj stateObj => register schemaObj stateObj
  | OpUnregister field => unregister field
  | OpWrite w => write w
  | OpUndo => undo
  | OpRedo => redo
  | OpOnChange path cb => onChange path cb
  | OpOnError cb => onError cb
  | OpOnRegister cb => onRegister cb
  | OpOnUnregister cb => onUnregister cb
  end.

(** A client that performs the operations one after the other and goes on
    after an exception. *)
Definition run_ops (ops : list Op) (s : Store) : Store :=
  fold_left (fun s o => exec (run_op o) s) ops s.

(** ** Notions used by the properties *)

(** A run with one more event in front. *)
Definition log_first {A} (ev : Event) (r : Run A) : Run A :=
  match r with (s, l, x) => (s, ev :: l, x) end.

(** [m] keeps the property [P] of the store, whether it returns or throws. *)
Definition preserves {A} (P : Store -> Prop) (m : M A) : Prop :=
  forall s, P s -> P (store_of (m s)).

(** The subscribers [onChangeCallbacks\[field\]]. *)
Definition subscribers (s : Store) (field : string) : list CbId :=
  match obj_get (onChangeCallbacks s) field with
  | Some cbs => cbs
  | None => []
  end.

(** The top-level field a write belongs to. *)
Definition written_field (w : Write) : string :=
  match w with
  | WTop prop _ => prop
  | WNested baseProp _ _ _ => baseProp
  end.

(** The value the written field has once the assignment is made; [None]
    when the assignment cannot be made. *)
Definition field_after (st : Obj Value) (w : Write) : option Value :=
  match w with
  | WTop _ value => Some value
  | WNested baseProp path prop value =>
      let root := or_undefined (obj_get st baseProp) in
      match navigate root path with
      | inr _ => update_at root path prop value
      | inl _ => None
      end
  end.

(** The field has a rule and the rule accepts [v]. *)
Definition rule_accepts (s : Store) (field : string) (v : Value) : bool :=
  match obj_get (schema s) field with
  | Some (Some rule) =>
      match rule_validate rule (strict (opts s)) v with
      | None => true
      | Some _ => false
      end
  | _ => false
  end.

(** The field has a rule and the rule rejects [v]. *)
Definition rule_rejects (s : Store) (field : string) (v : Value) : bool :=
  match obj_get (schema s) field with
  | Some (Some rule) =>
      match rule_validate rule (strict (opts s)) v with
      | None => false
      | Some _ => true
      end
  | _ => false
  end.

(** [JSON.stringify(state)] does not throw. *)
Definition copyable (st : Obj Value) : bool :=
  match JSON_copy_state st with
  | inr _ => true
  | inl _ => false
  end.

(** An accepted write: the setter gets as far as the rule engine, the
    written field is registered and its rule accepts the value the field
    has after the assignment. *)
Definition accepted (s : Store) (w : Write) : bool :=
  copyable (state s) &&
  match field_after (state s) w with
  | Some v =>
      rule_accepts s (written_field w) v &&
      match w with
      | WTop _ _ => true
      | WNested _ _ _ _ => negb (has_null v)
      end
  | None => false
  end.

(** An accepted write of JSON data: [undefined] does not occur in the
    value the field gets. *)
Definition good_write (s : Store) (w : Write) : bool :=
  accepted s w &&
  match field_after (state s) w with
  | Some v => json_data v
  | None => false
  end.


(** The store after the writes [ws], made one after the other. *)
Definition run_writes (ws : list Write) (s : Store) : Store :=
  fold_left (fun s w => exec (write w) s) ws s.



(** No name occurs twice. *)
Fixpoint nodupb (l : list string) : bool :=
  match l with
  | [] => true
  | x :: rest => negb (includes rest x) && nodupb rest
  end.

(** The same names in the same order. *)
Fixpoint keys_eqb (a b : list string) : bool :=
  match a, b with
  | [], [] => true
  | x :: a', y :: b' => String.eqb x y && keys_eqb a' b'
  | _, _ => false
  end.

(** Every field of [e] holds JSON data that the rule of the field
    accepts. *)
Definition fields_ok (s : Store) (e : Obj Value) : bool :=
  forallb (fun kv => json_clean (snd kv) && rule_accepts s (fst kv) (snd kv)) e.

(** A full state (the live one or a snapshot) that fits the store: the
    fields of the live state, in the same order, each holding JSON data its
    rule accepts. *)
Definition entry_ok (s : Store) (e : Obj Value) : bool :=
  keys_eqb (obj_keys e) (obj_keys (state s)) && fields_ok s e.

(** Both ledgers together hold at most [historyBuffer] entries. *)
Definition room (s : Store) : bool :=
  match historyBuffer (opts s) with
  | Some hb =>
      Z.leb (Z.of_nat (List.length (history_undo s) + List.length (history_redo s)))
            (Z.max 0 hb)
  | None => true
  end.

(** Every registered field is in the state, and the state and every
    snapshot fit the store. *)
Definition settled (s : Store) : bool :=
  nodupb (obj_keys (state s)) &&
  forallb (fun kr => includes (obj_keys (state s)) (fst kr)) (schema s) &&
  entry_ok s (state s) &&
  forallb (entry_ok s) (history_undo s) &&
  forallb (entry_ok s) (history_redo s) &&
  room s.

(** The stores the history works on: settled, with no registration or
    replay under way. *)
Definition well_formed (s : Store) : bool :=
  updateHistory s && settled s.

(** The events of the assignment [state\[field\] = v] when the rule accepts
    it: the rule engine is consulted, then the subscribers of the field are
    called. *)
Definition accepted_top_events (s : Store) (field : string) (v : Value)
  : list Event :=
  EvValidate field (strict (opts s)) v
    :: map (fun cb => EvChange cb field v None None) (subscribers s field).

(** The event is a call of the rule engine. *)
Definition is_validate (ev : Event) : bool :=
  match ev with EvValidate _ _ _ => true | _ => false end.

(** The event is a call of an [onChange] subscriber. *)
Definition is_change (ev : Event) : bool :=
  match ev with EvChange _ _ _ _ _ => true | _ => false end.

(** The length of a ledger stays within [historyBuffer]. *)
Definition within (hb : Z) (l : list Snapshot) : Prop :=
  (Z.of_nat (List.length l) <= hb)%Z.

(** The store after an accepted assignment that gives [field] the value
    [v]: the value is in place and, unless history is switched off, the
    snapshot [snap] taken before the assignment is pushed on the undo
    ledger and the redo ledger is emptied. *)
Definition committed (s : Store) (field : string) (v : Value)
           (snap : Snapshot) : Store :=
  let s1 := with_state (obj_set (state s) field v) s in
  if updateHistory s
  then with_redo []
         (with_undo
            (push_bounded (historyBuffer (opts s)) (history_undo s) snap) s1)
  else s1.

(** The events of an accepted assignment inside a field. *)
Definition accepted_nested_events (s : Store) (field : string) (v : Value)
           (prop : Key) (value : Value) : list Event :=
  EvValidate field (strict (opts s)) v
    :: map (fun cb => EvChange cb field v (Some prop) (Some value))
           (subscribers s field).

(** The events of a replay in which every field is accepted. *)
Definition replay_events (s : Store) (p : Snapshot) : list Event :=
  flat_map (fun kv => accepted_top_events s (fst kv) (snd kv)) p.

(** The store after the snapshot [p] has been put back. *)
Definition restored (s : Store) (p : Snapshot) : Store :=
  with_updateHistory true (with_state p s).

(** A store that has only been set up: nothing has been written yet. *)
Definition fresh (s : Store) : Prop :=
  settled s = true /\ history_undo s = [] /\ history_redo s = [] /\
  (updateHistory s = true \/ schema s = []).

(** Both ledgers are within the [historyBuffer] [hb] of the store. *)
Definition bounded (hb : Z) (s : Store) : Prop :=
  historyBuffer (opts s) = Some hb /\
  within hb (history_undo s) /\ within hb (history_redo s).

(** The events of [executeValidationErrorCallbacks(error)]. *)
Definition error_events (s : Store) (error : ErrorDetail) : list Event :=
  flat_map (fun cb =>
              match cb with
              | DefaultLogger =>
                  if errorLog (opts s) then [EvConsoleLog error] else []
              | UserError c => [EvError c error]
              end)
           (onErrorCallbacks s).

(** The store [state\[prop\] = value] leaves behind, case by case: the
    copy of the state throws; the field has no schema; the rule rejects
    the value; the rule accepts it. *)
Definition top_write_store (s : Store) (prop : string) (value : Value)
  : Store :=
  match JSON_copy_state (state s) with
  | inl _ => s
  | inr snap =>
      let written := with_state (obj_set (state s) prop value) s in
      match obj_get (schema s) prop with
      | Some (Some rule) =>
          match rule_validate rule (strict (opts s)) value with
          | Some _ =>
              if truthy (or_undefined (obj_get (state s) prop))
              then with_state
                     (obj_set (state written) prop
                        (or_undefined (obj_get (state s) prop))) s
              else with_state (obj_delete (state written) prop) s
          | None => committed s prop value snap
          end
      | _ => written
      end
  end.

(** [obj] has the property [k]. *)
Definition has_prop (obj : Value) (k : Key) : bool :=
  match obj, k with
  | VObj props, KStr name => includes (obj_keys props) name
  | VArr items, KIdx i => Nat.ltb i (List.length items)
  | _, _ => false
  end.

(** A value the getters wrap in a proxy: an array or an object. *)
Definition navigate_ok (v : Value) : bool :=
  match v with
  | VArr _ | VObj _ => true
  | _ => false
  end.

(** ** Example stores *)

Module Examples.
Open Scope string_scope.

Definition is_number (v : Value) : bool :=
  match v with VNum _ | VUndef => true | _ => false end.

Definition is_string (v : Value) : bool :=
  match v with VStr _ | VUndef => true | _ => false end.

(** [Joi.object({ id: Joi.number(), name: Joi.string().allow("") })] on
    the values used here. *)
Definition system_rule : Rule :=
  {| rule_validate := fun _ v =>
       match v with
       | VUndef => None
       | VObj props =>
           if forallb (fun kv =>
                         (String.eqb (fst kv) "id" && is_number (snd kv))
                         || (String.eqb (fst kv) "name" && is_string (snd kv)))
                      props
           then None else Some "ValidationError"
       | _ => Some "ValidationError"
       end |}.

(** [Joi.number()] *)
Definition number_rule : Rule :=
  {| rule_validate := fun _ v => if is_number v then None else Some "ValidationError" |}.

Definition SYSTEM_STATE_1 : Value := VObj [("id", VNum 0); ("name", VStr "")].
Definition SYSTEM_STATE_2 : Value := VObj [("id", VNum 1); ("name", VStr "test")].
Definition INVALID_SYSTEM_STATE_1 : Value :=
  VObj [("id", VStr "invalid"); ("name", VStr "")].

Definition setup_system : list Op :=
  [OpRegister [("system", system_rule)] [("system", SYSTEM_STATE_1)];
   OpOnChange "system" 7].

(** [system] registered, with one subscriber. *)
Definition system_store : Store := run_ops setup_system (Joistor None).

(** [state.system = { id: 1, name: "test" }] *)
Definition system_written : Store :=
  exec (write (WTop "system" SYSTEM_STATE_2)) system_store.


(** A counter registered with the default value [0]. *)
Definition counter_store : Store :=
  exec (register [("count", number_rule)] [("count", VNum 0)]) (Joistor None).

(** Two counters, one write to the first, then the second one is
    unregistered. *)
Definition two_then_one : Store :=
  run_ops
    [OpRegister [("b", number_rule)] [("b", VNum 2)];
     OpRegister [("a", number_rule)] [("a", VNum 1)];
     OpWrite (WTop "a" (VNum 5));
     OpUnregister "b"]
    (Joistor None).

(** The store of the repository's example script, [Joistor({ errorLog:
    false })], with a counter. *)
Definition partial_opts : Opts :=
  {| historyBuffer := None; strict := false; errorLog := false |}.

Definition unbounded_store : Store :=
  exec (register [("count", number_rule)] [("count", VNum 1)])
       (Joistor (Some partial_opts)).

Definition count_to (n : nat) : list Op :=
  map (fun i => OpWrite (WTop "count" (VNum (Z.of_nat i)))) (seq 2 n).
End Examples.

(** ** Further notions: reads, snapshots and the contents of the history *)

(** The value is [undefined]. *)
Definition is_undefined (v : Value) : bool :=
  match v with
  | VUndef => true
  | _ => false
  end.

(** The last [n] elements of [l]. *)
Definition lastn {A} (n : nat) (l : list A) : list A :=
  skipn (List.length l - n) l.

(** Every write of the sequence is accepted by the store it is made on. *)
Fixpoint accepted_writes (s : Store) (ws : list Write) : bool :=
  match ws with
  | [] => true
  | w :: rest => accepted s w && accepted_writes (exec (write w) s) rest
  end.

(** The copies of the state taken by the setter at the start of each of
    the writes [ws]. *)
Fixpoint pre_snapshots (s : Store) (ws : list Write) : list Snapshot :=
  match ws with
  | [] => []
  | w :: rest =>
      match JSON_copy_state (state s) with
      | inr snap => snap :: pre_snapshots (exec (write w) s) rest
      | inl _ => pre_snapshots (exec (write w) s) rest
      end
  end.

(** The schema, the options and the callback tables of [s] are those of
    [s0]. *)
Definition same_configuration (s0 s : Store) : Prop :=
  opts s = opts s0 /\ schema s = schema s0 /\
  onRegisterCallbacks s = onRegisterCallbacks s0 /\
  onUnregisterCallbacks s = onUnregisterCallbacks s0 /\
  onChangeCallbacks s = onChangeCallbacks s0 /\
  onErrorCallbacks s = onErrorCallbacks s0.

(** The events of a rejected assignment to [field], whose value is then
    [v]: the rule engine is consulted, then the error callbacks are
    called. *)
Definition rejected_events (s : Store) (field : string) (v : Value)
           (error : ErrorDetail) : list Event :=
  EvValidate field (strict (opts s)) v :: error_events s error.

(** The contents of a ledger with the bound [hb] after the entries [l]
    were pushed. *)
Definition kept (hb : option Z) (l : list Snapshot) : list Snapshot :=
  match hb with
  | Some n => lastn (Z.to_nat n) l
  | None => l
  end.

(** The store after a rejected assignment [state\[prop\] = value]: the
    previous value is put back when it is truthy, the property is deleted
    otherwise. *)
Definition rolled_back (s : Store) (prop : string) (value : Value) : Store :=
  let oldValue := or_undefined (obj_get (state s) prop) in
  if truthy oldValue
  then with_state (obj_set (obj_set (state s) prop value) prop oldValue) s
  else with_state (obj_delete (obj_set (state s) prop value) prop) s.

(** The [prop] and [value] arguments of [executeChangeCallbacks]: both
    [undefined] for an assignment to a whole field. *)
Definition written_prop (w : Write) : option Key :=
  match w with
  | WTop _ _ => None
  | WNested _ _ prop _ => Some prop
  end.

Definition written_value (w : Write) : option Value :=
  match w with
  | WTop _ _ => None
  | WNested _ _ _ value => Some value
  end.

(** The events of the accepted write [w] after which the written field
    holds [v]: the rule engine is consulted on [v], then each subscriber of
    the field is called. *)
Definition accepted_events (s : Store) (w : Write) (v : Value) : list Event :=
  EvValidate (written_field w) (strict (opts s)) v
    :: map (fun cb => EvChange cb (written_field w) v
                        (written_prop w) (written_value w))
           (subscribers s (written_field w)).

(** The store after [register] with the first key [field], its rule and
    the default value [v], when the assignment of [v] did not throw. *)
Definition registered (s : Store) (field : string) (rule : Rule) (v : Value)
           (accept : bool) : Store :=
  let s0 := with_schema (obj_set (schema s) field (Some rule))
              (with_updateHistory false s) in
  with_updateHistory true
    (if accept then with_state (obj_set (state s) field v) s0
     else rolled_back s0 field v).

(** The operations that work on the data of the store: assignments,
    [undo] and [redo]. *)
Definition data_op (o : Op) : bool :=
  match o with
  | OpWrite _ | OpUndo | OpRedo => true
  | _ => false
  end.

(** ** The previous version of the store

    The source keeps the version of [Joistor] that came before the error
    callbacks.  Its [validate] prints the error of the rule engine and
    returns nothing, or returns the value the engine hands back; its
    setters roll the assignment back whenever that result is falsy.  The
    store has no [onRegister], [onUnregister] or [onError] tables and no
    [errorLog] option: these parts of [Store] are neither read nor written
    here.  The closures of [updateUndoHistory] and [updateRedoHistory] and
    the getters are those of the current version. *)

Module Legacy.
Section RuleEngine.

(** [valid.value]: the value the rule engine returns with its verdict
    (the validated value, converted where the engine converts). *)
Variable rule_value : Rule -> bool -> Value -> Value.

(** [validate(obj, field)]; [VUndef] is the [undefined] of [return;]. *)
Definition validate (view : View) (field : string) : M Value :=
  s <- get ;;
  match obj_get (schema s) field with
  | Some (Some rule) =>
      v <- lift (validate_argument view (state s) field) ;;
      emit (EvValidate field (strict (opts s)) v) ;;
      match rule_validate rule (strict (opts s)) v with
      | Some error => emit (EvConsoleLog error) ;; ret VUndef
      | None => ret (rule_value rule (strict (opts s)) v)
      end
  | _ =>
      emit (EvConsoleLog ("No schema for " ++ field)%string) ;;
      ret VUndef
  end.

(** [executeCallbacks(prop)]: [callback(state, prop, state\[prop\])]. *)
Definition executeCallbacks (prop : string) : M unit :=
  s <- get ;;
  match obj_get (onChangeCallbacks s) prop with
  | Some cbs =>
      forEach cbs (fun cb =>
        s' <- get ;;
        fieldValue <- lift (stateRegisterProxyGetter (state s') prop) ;;
        emit (EvChange cb prop fieldValue None None))
  | None => ret tt
  end.

(** [stateRegisterProxySetter(obj, prop, value)] *)
Definition stateRegisterProxySetter (prop : string) (value : Value) : M unit :=
  undoObj <- updateUndoHistory TheState ;;
  _ <- updateRedoHistory NoArg ;;
  s <- get ;;
  let oldValue := or_undefined (obj_get (state s) prop) in
  modify (with_state (obj_set (state s) prop value)) ;;
  validatedState <- validate Target prop ;;
  if negb (truthy validatedState)
  then
    s' <- get ;;
    if truthy oldValue
    then modify (with_state (obj_set (state s') prop oldValue))
    else modify (with_state (obj_delete (state s') prop))
  else
    addUndo undoObj ;;
    clearRedo ;;
    executeCallbacks prop.

(** [stateFieldProxySetter(obj, prop, value)] of a field proxy created for
    [baseProp]. *)
Definition stateFieldProxySetter (baseProp : string) (path : list Key)
           (prop : Key) (value : Value) : M unit :=
  undoObj <- updateUndoHistory TheState ;;
  _ <- updateRedoHistory NoArg ;;
  s <- get ;;
  let root := or_undefined (obj_get (state s) baseProp) in
  obj <- lift (navigate root path) ;;
  let oldValue := prop_get obj prop in
  match update_at root path prop value with
  | None => throw OutsideModel
  | Some root' =>
      modify (with_state (obj_set (state s) baseProp root')) ;;
      validatedState <- validate Proxied baseProp ;;
      if negb (truthy validatedState)
      then
        s' <- get ;;
        match update_at root' path prop oldValue with
        | Some root'' =>
            modify (with_state (obj_set (state s') baseProp root''))
        | None => throw OutsideModel
        end
      else
        addUndo undoObj ;;
        clearRedo ;;
        executeCallbacks baseProp
  end.

(** An assignment made by a client of the older store. *)
Definition write (w : Write) : M unit :=
  match w with
  | WTop prop value => stateRegisterProxySetter prop value
  | WNested baseProp path prop value =>
      s <- get ;;
      root <- lift (stateRegisterProxyGetter (state s) baseProp) ;;
      _ <- lift (navigate root path) ;;
      stateFieldProxySetter baseProp path prop value
  end.

End RuleEngine.
End Legacy.

(** The older setter does not go on to the history and the subscribers:
    the field has no rule, the rule rejects the value, or the value the
    rule engine hands back is falsy. *)
Definition legacy_unaccepted (rule_value : Rule -> bool -> Value -> Value)
           (s : Store) (prop : string) (value : Value) : bool :=
  match obj_get (schema s) prop with
  | Some (Some rule) =>
      match rule_validate rule (strict (opts s)) value with
      | Some _ => true
      | None => negb (truthy (rule_value rule (strict (opts s)) value))
      end
  | _ => true
  end.

(** ** More example stores *)

Module MoreExamples.
Open Scope string_scope.

(** A counter with room for two snapshots, [Joistor({ historyBuffer: 2 })]
    (the other options are then [undefined]). *)
Definition tiny_store : Store :=
  exec (register [("count", Examples.number_rule)] [("count", VNum 7)])
       (Joistor (Some {| historyBuffer := Some 2%Z; strict := false;
                         errorLog := false |})).

(** A field is written, then another field is registered. *)
Definition grown_store : Store :=
  run_ops
    [OpRegister [("a", Examples.number_rule)] [("a", VNum 1)];
     OpWrite (WTop "a" (VNum 5));
     OpRegister [("b", Examples.number_rule)] [("b", VNum 2)]]
    (Joistor None).

(** [Joi.any()]: every value is accepted. *)
Definition any_rule : Rule := {| rule_validate := fun _ _ => None |}.

(** A field that may hold anything, with one subscriber. *)
Definition nullable_store : Store :=
  run_ops [OpRegister [("a", any_rule)] [("a", VNum 1)]; OpOnChange "a" 5]
          (Joistor None).

(** A rule engine that hands the validated value back as it is. *)
Definition as_given (rule : Rule) (strict : bool) (v : Value) : Value := v.
End MoreExamples.

(** * Properties *)

(** ** The monad *)

Lemma bind_get {B} (k : Store -> M B) s : bind get k s = k s s.
Proof. unfold bind, get. destruct (k s s) as [[s2 l2] r]. reflexivity. Qed.

Lemma bind_modify {B} f (k : unit -> M B) s :
  bind (modify f) k s = k tt (f s).
Proof. unfold bind, modify. destruct (k tt (f s)) as [[s2 l2] r]. reflexivity. Qed.

Lemma bind_ret {A B} (a : A) (k : A -> M B) s : bind (ret a) k s = k a s.
Proof. unfold bind, ret. destruct (k a s) as [[s2 l2] r]. reflexivity. Qed.

Lemma bind_throw {A B} e (k : A -> M B) s :
  bind (throw e) k s = (s, [], inl e).
Proof. reflexivity. Qed.

Lemma bind_lift_inr {A B} (a : A) (k : A -> M B) s :
  bind (lift (inr a)) k s = k a s.
Proof. unfold bind, lift. destruct (k a s) as [[s2 l2] r]. reflexivity. Qed.

Lemma bind_lift_inl {A B} e (k : A -> M B) s :
  bind (lift (inl e)) k s = (s, [], inl e).
Proof. reflexivity. Qed.

Lemma bind_emit {B} ev (k : unit -> M B) s :
  bind (emit ev) k s = log_first ev (k tt s).
Proof.
  unfold bind, emit, log_first. destruct (k tt s) as [[s2 l2] r]. reflexivity.
Qed.

Lemma bind_bind {A B C} (m : M A) (k : A -> M B) (k' : B -> M C) s :
  bind (bind m k) k' s = bind m (fun a => bind (k a) k') s.
Proof.
  unfold bind. destruct (m s) as [[s1 l1] [e|a]]; [reflexivity|].
  destruct (k a s1) as [[s2 l2] [e|b]]; [reflexivity|].
  destruct (k' b s2) as [[s3 l3] r]. now rewrite app_assoc.
Qed.

Lemma bind_run {A B} (m : M A) (k : A -> M B) s s1 l1 a :
  m s = (s1, l1, inr a) ->
  bind m k s = (store_of (k a s1), l1 ++ events_of (k a s1), result_of (k a s1)).
Proof.
  intros H. unfold bind. rewrite H.
  destruct (k a s1) as [[s2 l2] r]. reflexivity.
Qed.

Lemma bind_silent {A B} (m : M A) (k : A -> M B) s s1 a :
  m s = (s1, [], inr a) -> bind m k s = k a s1.
Proof.
  intros H. unfold bind. rewrite H.
  destruct (k a s1) as [[s2 l2] r]. reflexivity.
Qed.

Lemma run_eq {A} (s1 s2 : Store) (l1 l2 : list Event) (r1 r2 : Exn + A) :
  s1 = s2 -> l1 = l2 -> r1 = r2 -> (s1, l1, r1) = (s2, l2, r2).
Proof. intros -> -> ->. reflexivity. Qed.

Lemma run_eta {A} (r : Run A) : r = (store_of r, events_of r, result_of r).
Proof. destruct r as [[s l] x]. reflexivity. Qed.

Lemma store_of_log_first {A} ev (r : Run A) :
  store_of (log_first ev r) = store_of r.
Proof. destruct r as [[s l] x]. reflexivity. Qed.

Lemma result_of_log_first {A} ev (r : Run A) :
  result_of (log_first ev r) = result_of r.
Proof. destruct r as [[s l] x]. reflexivity. Qed.

Lemma events_of_log_first {A} ev (r : Run A) :
  events_of (log_first ev r) = ev :: events_of r.
Proof. destruct r as [[s l] x]. reflexivity. Qed.

Lemma store_of_bind {A B} (m : M A) (k : A -> M B) s :
  store_of (bind m k s) =
  match result_of (m s) with
  | inl _ => store_of (m s)
  | inr a => store_of (k a (store_of (m s)))
  end.
Proof.
  unfold bind, store_of, result_of.
  destruct (m s) as [[s1 l1] [e|a]]; cbn; [reflexivity|].
  destruct (k a s1) as [[s2 l2] r]; reflexivity.
Qed.

Ltac store_simpl :=
  cbn [opts updateHistory schema state history_undo history_redo
       onRegisterCallbacks onUnregisterCallbacks onChangeCallbacks
       onErrorCallbacks with_updateHistory with_schema with_state with_undo
       with_redo with_callbacks historyBuffer strict errorLog] in *.

(** One step of symbolic execution of a computation applied to a store. *)
Ltac step :=
  first [ rewrite bind_bind | rewrite bind_get | rewrite bind_modify
        | rewrite bind_ret | rewrite bind_throw | rewrite bind_lift_inr
        | rewrite bind_lift_inl | rewrite bind_emit
        | rewrite store_of_log_first | rewrite result_of_log_first
        | rewrite events_of_log_first ];
  cbv beta; store_simpl.

(** ** Computations that keep a property of the store *)

Lemma preserves_bind {A B} P (m : M A) (k : A -> M B) :
  preserves P m -> (forall a, preserves P (k a)) -> preserves P (bind m k).
Proof.
  intros Hm Hk s HP. rewrite store_of_bind.
  destruct (result_of (m s)); [apply Hm, HP | apply Hk, Hm, HP].
Qed.

Lemma preserves_get P : preserves P get.
Proof. intros s HP. exact HP. Qed.

Lemma preserves_ret {A} P (a : A) : preserves P (ret a).
Proof. intros s HP. exact HP. Qed.

Lemma preserves_throw {A} P e : preserves P (@throw A e).
Proof. intros s HP. exact HP. Qed.

Lemma preserves_emit P ev : preserves P (emit ev).
Proof. intros s HP. exact HP. Qed.

Lemma preserves_lift {A} P (r : Exn + A) : preserves P (lift r).
Proof. intros s HP. exact HP. Qed.

Lemma preserves_modify P f :
  (forall s, P s -> P (f s)) -> preserves P (modify f).
Proof. intros H s HP. apply H, HP. Qed.

Lemma preserves_forEach {A} P (xs : list A) (f : A -> M unit) :
  (forall x, preserves P (f x)) -> preserves P (forEach xs f).
Proof.
  intros Hf. induction xs as [|x xs IH]; cbn [forEach].
  - apply preserves_ret.
  - apply preserves_bind; auto.
Qed.

Lemma preserves_if {A} P (b : bool) (m1 m2 : M A) :
  preserves P m1 -> preserves P m2 -> preserves P (if b then m1 else m2).
Proof. destruct b; auto. Qed.

(** Breaks a computation down to its [modify] steps. *)
Ltac keeps :=
  repeat match goal with
    | |- preserves _ (bind _ _) => apply preserves_bind; [|intro]
    | |- preserves _ get => apply preserves_get
    | |- preserves _ (ret _) => apply preserves_ret
    | |- preserves _ (throw _) => apply preserves_throw
    | |- preserves _ (emit _) => apply preserves_emit
    | |- preserves _ (lift _) => apply preserves_lift
    | |- preserves _ (forEach _ _) => apply preserves_forEach; intro
    | |- preserves _ (if _ then _ else _) => apply preserves_if
    | |- preserves _ (match ?x with _ => _ end) => destruct x
    end.

Lemma preserves_callbacks_change P b p v :
  preserves P (executeChangeCallbacks b p v).
Proof. unfold executeChangeCallbacks. keeps. Qed.

Lemma preserves_callbacks_error P e :
  preserves P (executeValidationErrorCallbacks e).
Proof. unfold executeValidationErrorCallbacks. keeps. Qed.

Lemma preserves_callbacks_register P : preserves P executeRegisterCallbacks.
Proof. unfold executeRegisterCallbacks. keeps. Qed.

Lemma preserves_callbacks_unregister P :
  preserves P executeUnregisterCallbacks.
Proof. unfold executeUnregisterCallbacks. keeps. Qed.

Lemma preserves_validate P view field : preserves P (validate view field).
Proof.
  unfold validate. keeps; apply preserves_callbacks_error.
Qed.

Lemma preserves_copy_arg P a : preserves P (copy_arg a).
Proof. unfold copy_arg. keeps. Qed.

(** ** Objects *)

Lemma includes_In keys k : includes keys k = true <-> In k keys.
Proof.
  unfold includes. rewrite existsb_exists. split.
  - intros [x [Hx E]]. apply String.eqb_eq in E. now subst.
  - intros H. exists k. split; [exact H | apply String.eqb_refl].
Qed.

Lemma obj_get_set_same {A} (o : Obj A) k v : obj_get (obj_set o k v) k = Some v.
Proof.
  induction o as [|[k' v'] o IH]; cbn.
  - now rewrite String.eqb_refl.
  - destruct (String.eqb k' k) eqn:E; cbn; rewrite E; auto.
Qed.

Lemma obj_get_set_other {A} (o : Obj A) k k' v :
  k <> k' -> obj_get (obj_set o k v) k' = obj_get o k'.
Proof.
  intros Hne. induction o as [|[j x] o IH]; cbn.
  - destruct (String.eqb k k') eqn:E; [apply String.eqb_eq in E; contradiction | reflexivity].
  - destruct (String.eqb j k) eqn:E; cbn.
    + apply String.eqb_eq in E. subst j.
      destruct (String.eqb k k') eqn:E'; [apply String.eqb_eq in E'; contradiction | reflexivity].
    + destruct (String.eqb j k'); auto.
Qed.

Lemma obj_get_delete_other {A} (o : Obj A) k k' :
  k <> k' -> obj_get (obj_delete o k) k' = obj_get o k'.
Proof.
  intros Hne. induction o as [|[j x] o IH]; cbn; [reflexivity|].
  destruct (String.eqb j k) eqn:E; cbn.
  - apply String.eqb_eq in E. subst j.
    destruct (String.eqb k k') eqn:E'; [apply String.eqb_eq in E'; contradiction | exact IH].
  - destruct (String.eqb j k'); auto.
Qed.

Lemma obj_get_In {A} (o : Obj A) k v : obj_get o k = Some v -> In (k, v) o.
Proof.
  induction o as [|[j x] o IH]; cbn; [discriminate|].
  destruct (String.eqb j k) eqn:E.
  - intros H. injection H as ->. apply String.eqb_eq in E. subst. now left.
  - intros H. right. auto.
Qed.

Lemma obj_get_keys {A} (o : Obj A) k :
  In k (obj_keys o) -> exists v, obj_get o k = Some v.
Proof.
  induction o as [|[j x] o IH]; cbn; [contradiction|].
  intros [->|H].
  - rewrite String.eqb_refl. eauto.
  - destruct (String.eqb j k); eauto.
Qed.

Lemma obj_keys_set_in {A} (o : Obj A) k v :
  In k (obj_keys o) -> obj_keys (obj_set o k v) = obj_keys o.
Proof.
  induction o as [|[j x] o IH]; cbn; [contradiction|].
  intros H. destruct (String.eqb j k) eqn:E; cbn; [reflexivity|].
  f_equal. apply IH. destruct H as [->|H]; [|exact H].
  rewrite String.eqb_refl in E. discriminate.
Qed.

Lemma obj_set_app {A} (done : Obj A) k old v rest :
  ~ In k (obj_keys done) ->
  obj_set (done ++ (k, old) :: rest) k v = done ++ (k, v) :: rest.
Proof.
  induction done as [|[j x] done IH]; cbn; intros Hn.
  - now rewrite String.eqb_refl.
  - destruct (String.eqb j k) eqn:E.
    + apply String.eqb_eq in E. subst. exfalso. apply Hn. now left.
    + f_equal. apply IH. intros H. apply Hn. now right.
Qed.

Lemma obj_get_app {A} (done : Obj A) k v rest :
  ~ In k (obj_keys done) ->
  obj_get (done ++ (k, v) :: rest) k = Some v.
Proof.
  induction done as [|[j x] done IH]; cbn; intros Hn.
  - now rewrite String.eqb_refl.
  - destruct (String.eqb j k) eqn:E.
    + apply String.eqb_eq in E. subst. exfalso. apply Hn. now left.
    + apply IH. intros H. apply Hn. now right.
Qed.

Lemma nodupb_NoDup l : nodupb l = true <-> NoDup l.
Proof.
  induction l as [|x l IH]; cbn.
  - split; [constructor | reflexivity].
  - rewrite andb_true_iff, negb_true_iff, IH. split.
    + intros [Hn Hd]. constructor; [|exact Hd].
      intros Hin. apply includes_In in Hin. congruence.
    + intros H. inversion H as [|? ? Hn Hd]; subst. split; [|exact Hd].
      destruct (includes l x) eqn:E; [|reflexivity].
      apply includes_In in E. contradiction.
Qed.

Lemma keys_eqb_eq a b : keys_eqb a b = true <-> a = b.
Proof.
  revert b. induction a as [|x a IH]; destruct b as [|y b]; cbn;
    try (split; [discriminate | discriminate]); [tauto|].
  rewrite andb_true_iff, String.eqb_eq, IH. split.
  - intros [-> ->]. reflexivity.
  - intros H. injection H as -> ->. auto.
Qed.

(** ** Copies of JSON data *)

Lemma Value_induction (P : Value -> Prop) :
  P VUndef -> P VNull -> (forall b, P (VBool b)) -> (forall n, P (VNum n)) ->
  (forall s, P (VStr s)) ->
  (forall items, Forall P items -> P (VArr items)) ->
  (forall props, Forall (fun kv => P (snd kv)) props -> P (VObj props)) ->
  forall v, P v.
Proof.
  intros HU HN HB HZ HS HA HO.
  fix IH 1.
  intros [| |b|n|s|items|props];
    [exact HU | exact HN | apply HB | apply HZ | apply HS | apply HA | apply HO].
  - induction items as [|x items IHl]; constructor; [apply IH | exact IHl].
  - induction props as [|[k x] props IHl]; constructor; [apply IH | exact IHl].
Qed.

Lemma json_copy_clean v : json_clean v = true -> json_copy v = inr (Some v).
Proof.
  induction v as [| |b|n|s|items IH|props IH] using Value_induction;
    cbn [json_clean json_copy]; try discriminate; try reflexivity; intros Hc.
  - assert (E : copy_items json_copy items = inr items).
    { induction IH as [|x items Hx _ IHl]; cbn in *; [reflexivity|].
      apply andb_true_iff in Hc as [Hc1 Hc2].
      rewrite (Hx Hc1), (IHl Hc2). reflexivity. }
    now rewrite E.
  - assert (E : copy_props json_copy props = inr props).
    { induction IH as [|[k x] props Hx _ IHl]; cbn in *; [reflexivity|].
      apply andb_true_iff in Hc as [Hc1 Hc2].
      rewrite (Hx Hc1), (IHl Hc2). reflexivity. }
    now rewrite E.
Qed.

Lemma JSON_copy_state_clean st :
  clean_obj st = true -> JSON_copy_state st = inr st.
Proof.
  unfold clean_obj, JSON_copy_state.
  induction st as [|[k x] st IH]; cbn; [reflexivity|].
  intros Hc. apply andb_true_iff in Hc as [Hc1 Hc2].
  rewrite (json_copy_clean _ Hc1), (IH Hc2). reflexivity.
Qed.

Lemma json_clean_no_null v : json_clean v = true -> has_null v = false.
Proof.
  induction v as [| |b|n|s|items IH|props IH] using Value_induction;
    cbn [json_clean has_null]; try discriminate; try reflexivity; intros Hc.
  - induction IH as [|x items Hx _ IHl]; cbn in *; [reflexivity|].
    apply andb_true_iff in Hc as [Hc1 Hc2].
    now rewrite (Hx Hc1), (IHl Hc2).
  - induction IH as [|[k x] props Hx _ IHl]; cbn in *; [reflexivity|].
    apply andb_true_iff in Hc as [Hc1 Hc2].
    now rewrite (Hx Hc1), (IHl Hc2).
Qed.

Lemma json_data_clean v :
  json_data v = true -> has_null v = false -> json_clean v = true.
Proof.
  induction v as [| |b|n|s|items IH|props IH] using Value_induction;
    cbn [json_clean json_data has_null]; try discriminate; try reflexivity;
    intros Hd Hn.
  - induction IH as [|x items Hx _ IHl]; cbn in *; [reflexivity|].
    apply andb_true_iff in Hd as [Hd1 Hd2].
    apply orb_false_iff in Hn as [Hn1 Hn2].
    now rewrite (Hx Hd1 Hn1), (IHl Hd2 Hn2).
  - induction IH as [|[k x] props Hx _ IHl]; cbn in *; [reflexivity|].
    apply andb_true_iff in Hd as [Hd1 Hd2].
    apply orb_false_iff in Hn as [Hn1 Hn2].
    now rewrite (Hx Hd1 Hn1), (IHl Hd2 Hn2).
Qed.

(** The copy throws exactly when a [null] is met. *)
Lemma json_copy_null v :
  if has_null v then json_copy v = inl TypeError
  else exists o, json_copy v = inr o.
Proof.
  induction v as [| |b|n|s|items IH|props IH] using Value_induction;
    cbn [json_copy has_null]; eauto.
  - assert (H : if existsb has_null items
                then copy_items json_copy items = inl TypeError
                else exists l, copy_items json_copy items = inr l).
    { induction IH as [|x items Hx _ IHl]; cbn; [eauto|].
      destruct (has_null x); cbn.
      - now rewrite Hx.
      - destruct Hx as [ox ->]. destruct (existsb has_null items).
        + now rewrite IHl.
        + destruct IHl as [l ->]. eauto. }
    destruct (existsb has_null items).
    + now rewrite H.
    + destruct H as [l ->]. eauto.
  - assert (H : if existsb (fun kv => has_null (snd kv)) props
                then copy_props json_copy props = inl TypeError
                else exists l, copy_props json_copy props = inr l).
    { induction IH as [|[k x] props Hx _ IHl]; cbn; [eauto|].
      cbn in Hx. destruct (has_null x); cbn.
      - now rewrite Hx.
      - destruct Hx as [ox ->].
        destruct (existsb (fun kv => has_null (snd kv)) props).
        + now rewrite IHl.
        + destruct IHl as [l ->]. eauto. }
    destruct (existsb (fun kv : string * Value => has_null (snd kv)) props).
    + now rewrite H.
    + destruct H as [l ->]. eauto.
Qed.

Lemma copyable_no_null st f v :
  copyable st = true -> In (f, v) st -> has_null v = false.
Proof.
  unfold copyable, JSON_copy_state.
  induction st as [|[k x] st IH]; cbn; [contradiction|].
  intros Hc Hin. pose proof (json_copy_null x) as Hx.
  destruct (has_null x) eqn:Ex.
  - rewrite Hx in Hc. discriminate.
  - destruct Hx as [ox Hox]. rewrite Hox in Hc.
    destruct Hin as [E|Hin]; [injection E as <- <-; exact Ex|].
    apply IH; [|exact Hin].
    destruct (copy_props json_copy st); [discriminate | reflexivity].
Qed.

(** ** The getter of the state proxy *)

Lemma stateFields_own obj prop v :
  obj_get obj prop = Some v ->
  existsb (Key_eqb (KStr prop)) (stateFields (VObj obj)) = true.
Proof.
  intros H. apply obj_get_In in H. cbn [stateFields].
  rewrite existsb_app. apply orb_true_iff. left.
  apply existsb_exists. exists (KStr prop). split.
  - apply in_map_iff. exists (prop, v). auto.
  - cbn. apply String.eqb_refl.
Qed.

(** The guard [props.includes(prop)] only matters for a name that is not a
    property of the state: the getter yields the property, wrapped. *)
Lemma stateRegisterProxyGetter_own obj prop v :
  obj_get obj prop = Some v -> stateRegisterProxyGetter obj prop = wrap v.
Proof.
  intros H. unfold stateRegisterProxyGetter.
  rewrite (stateFields_own _ _ _ H), H. reflexivity.
Qed.

Lemma wrap_clean v : json_clean v = true -> wrap v = inr v.
Proof. destruct v; cbn; intros H; try discriminate; reflexivity. Qed.

(** ** The setters, step by step *)

Lemma executeChangeCallbacks_run s b p v fv :
  stateRegisterProxyGetter (state s) b = inr fv ->
  executeChangeCallbacks b p v s =
  (s, map (fun cb => EvChange cb b fv p v) (subscribers s b), inr tt).
Proof.
  intros Hg. unfold executeChangeCallbacks, subscribers. step.
  destruct (obj_get (onChangeCallbacks s) b) as [cbs|]; [|reflexivity].
  induction cbs as [|cb cbs IH]; cbn [forEach map]; [reflexivity|].
  repeat step. rewrite Hg. repeat step. rewrite IH. reflexivity.
Qed.

Lemma addUndo_run s x :
  addUndo x s =
  ((if updateHistory s
    then with_undo (push_bounded (historyBuffer (opts s)) (history_undo s) x) s
    else s), [], inr tt).
Proof. unfold addUndo. step. destruct (updateHistory s); reflexivity. Qed.

Lemma addRedo_run s x :
  addRedo x s =
  ((if updateHistory s
    then with_redo (push_bounded (historyBuffer (opts s)) (history_redo s) x) s
    else s), [], inr tt).
Proof. unfold addRedo. step. destruct (updateHistory s); reflexivity. Qed.

Lemma clearRedo_run s :
  clearRedo s = ((if updateHistory s then with_redo [] s else s), [], inr tt).
Proof. unfold clearRedo. step. destruct (updateHistory s); reflexivity. Qed.

Lemma subscribers_committed s f v snap g :
  subscribers (committed s f v snap) g = subscribers s g.
Proof. unfold committed, subscribers. destruct (updateHistory s); reflexivity. Qed.

Lemma state_committed s f v snap :
  state (committed s f v snap) = obj_set (state s) f v.
Proof. unfold committed. destruct (updateHistory s); reflexivity. Qed.

(** An accepted assignment [state\[prop\] = value], up to the calls of the
    subscribers. *)
Lemma stateRegisterProxySetter_commit s prop value snap rule :
  JSON_copy_state (state s) = inr snap ->
  obj_get (schema s) prop = Some (Some rule) ->
  rule_validate rule (strict (opts s)) value = None ->
  stateRegisterProxySetter prop value s =
  log_first (EvValidate prop (strict (opts s)) value)
    (executeChangeCallbacks prop None None (committed s prop value snap)).
Proof.
  intros Hc Hs Hr.
  unfold stateRegisterProxySetter, updateUndoHistory, updateRedoHistory, copy_arg.
  repeat step. rewrite Hc. repeat step.
  unfold validate. repeat step. rewrite Hs. unfold validate_argument.
  repeat step. rewrite obj_get_set_same. cbn [or_undefined]. rewrite Hr.
  repeat step. rewrite (bind_silent _ _ _ _ _ (addUndo_run _ _)).
  rewrite (bind_silent _ _ _ _ _ (clearRedo_run _)).
  store_simpl. unfold committed.
  destruct (updateHistory s) eqn:Hu; store_simpl; rewrite ?Hu; reflexivity.
Qed.

Lemma stateRegisterProxySetter_accept s prop value snap rule :
  JSON_copy_state (state s) = inr snap ->
  obj_get (schema s) prop = Some (Some rule) ->
  rule_validate rule (strict (opts s)) value = None ->
  wrap value = inr value ->
  stateRegisterProxySetter prop value s =
  (committed s prop value snap, accepted_top_events s prop value, inr tt).
Proof.
  intros Hc Hs Hr Hw.
  rewrite (stateRegisterProxySetter_commit _ _ _ _ _ Hc Hs Hr).
  rewrite (executeChangeCallbacks_run _ prop None None value).
  - cbn [log_first]. unfold accepted_top_events.
    now rewrite subscribers_committed.
  - rewrite state_committed.
    rewrite (stateRegisterProxyGetter_own _ _ _ (obj_get_set_same _ _ _)).
    exact Hw.
Qed.

Lemma navigate_container v path obj :
  navigate v path = inr obj ->
  wrap v = inr v /\ v <> VUndef.
Proof.
  destruct v, path; cbn; intros H; try discriminate; split; congruence.
Qed.

Lemma wrap_no_null v : has_null v = false -> wrap v = inr v.
Proof. destruct v; cbn; intros H; try discriminate; reflexivity. Qed.

(** An accepted assignment inside a field, up to the calls of the
    subscribers. *)
Lemma stateFieldProxySetter_commit s baseProp path prop value snap root obj v rule :
  JSON_copy_state (state s) = inr snap ->
  obj_get (state s) baseProp = Some root ->
  navigate root path = inr obj ->
  update_at root path prop value = Some v ->
  obj_get (schema s) baseProp = Some (Some rule) ->
  rule_validate rule (strict (opts s)) v = None ->
  has_null v = false ->
  stateFieldProxySetter baseProp path prop value s =
  log_first (EvValidate baseProp (strict (opts s)) v)
    (executeChangeCallbacks baseProp (Some prop) (Some value)
       (committed s baseProp v snap)).
Proof.
  intros Hc Hroot Hnav Hup Hs Hr Hn.
  unfold stateFieldProxySetter, updateUndoHistory, updateRedoHistory, copy_arg.
  repeat step. rewrite Hc. repeat step.
  rewrite Hroot. cbn [or_undefined]. rewrite Hnav. repeat step.
  rewrite Hup. repeat step.
  unfold validate. repeat step. rewrite Hs. unfold validate_argument.
  rewrite (stateRegisterProxyGetter_own _ _ _ (obj_get_set_same _ _ _)).
  rewrite (wrap_no_null _ Hn), Hn. repeat step. rewrite Hr.
  repeat step. rewrite (bind_silent _ _ _ _ _ (addUndo_run _ _)).
  rewrite (bind_silent _ _ _ _ _ (clearRedo_run _)).
  store_simpl. unfold committed.
  destruct (updateHistory s) eqn:Hu; store_simpl; rewrite ?Hu; reflexivity.
Qed.

Lemma stateFieldProxySetter_accept s baseProp path prop value snap root obj v rule :
  JSON_copy_state (state s) = inr snap ->
  obj_get (state s) baseProp = Some root ->
  navigate root path = inr obj ->
  update_at root path prop value = Some v ->
  obj_get (schema s) baseProp = Some (Some rule) ->
  rule_validate rule (strict (opts s)) v = None ->
  has_null v = false ->
  stateFieldProxySetter baseProp path prop value s =
  (committed s baseProp v snap,
   accepted_nested_events s baseProp v prop value, inr tt).
Proof.
  intros Hc Hroot Hnav Hup Hs Hr Hn.
  rewrite (stateFieldProxySetter_commit _ _ _ _ _ _ _ _ _ _ Hc Hroot Hnav Hup Hs Hr Hn).
  rewrite (executeChangeCallbacks_run _ baseProp _ _ v).
  - cbn [log_first]. unfold accepted_nested_events.
    now rewrite subscribers_committed.
  - rewrite state_committed.
    rewrite (stateRegisterProxyGetter_own _ _ _ (obj_get_set_same _ _ _)).
    now apply wrap_no_null.
Qed.

(** What [accepted] says, spelled out. *)
Lemma accepted_inv s w :
  accepted s w = true ->
  exists snap v rule,
    JSON_copy_state (state s) = inr snap /\
    field_after (state s) w = Some v /\
    obj_get (schema s) (written_field w) = Some (Some rule) /\
    rule_validate rule (strict (opts s)) v = None /\
    match w with WTop _ _ => True | WNested _ _ _ _ => has_null v = false end.
Proof.
  unfold accepted, copyable, rule_accepts. intros H.
  apply andb_true_iff in H as [Hc H].
  destruct (JSON_copy_state (state s)) as [e|snap]; [discriminate|].
  destruct (field_after (state s) w) as [v|]; [|discriminate].
  apply andb_true_iff in H as [Hr Hn].
  destruct (obj_get (schema s) (written_field w)) as [[rule|]|]; try discriminate.
  destruct (rule_validate rule (strict (opts s)) v) eqn:E; [discriminate|].
  exists snap, v, rule. repeat split; auto.
  destruct w; [exact I | now apply negb_true_iff].
Qed.

(** The store an accepted write leaves behind. *)
Lemma write_accepted_store s w :
  accepted s w = true ->
  exists snap v,
    JSON_copy_state (state s) = inr snap /\
    field_after (state s) w = Some v /\
    exec (write w) s = committed s (written_field w) v snap.
Proof.
  intros H. destruct (accepted_inv _ _ H) as (snap & v & rule & Hc & Hf & Hs & Hr & Hn).
  exists snap, v. split; [exact Hc|]. split; [exact Hf|].
  unfold exec. destruct w as [prop value | baseProp path prop value];
    cbn [written_field field_after write] in *.
  - injection Hf as <-.
    rewrite (stateRegisterProxySetter_commit _ _ _ _ _ Hc Hs Hr).
    rewrite store_of_log_first.
    now apply (preserves_callbacks_change (fun x => x = committed s prop value snap)).
  - destruct (navigate (or_undefined (obj_get (state s) baseProp)) path)
      as [e|obj] eqn:Hnav; [discriminate|].
    destruct (navigate_container _ _ _ Hnav) as [Hw Hu].
    destruct (obj_get (state s) baseProp) as [root|] eqn:Hroot;
      [|now elim Hu].
    cbn [or_undefined] in *.
    repeat step. rewrite (stateRegisterProxyGetter_own _ _ _ Hroot), Hw.
    repeat step. rewrite Hnav. repeat step.
    rewrite (stateFieldProxySetter_commit _ _ _ _ _ _ _ _ _ _ Hc Hroot Hnav Hf Hs Hr Hn).
    rewrite store_of_log_first.
    now apply (preserves_callbacks_change (fun x => x = committed s baseProp v snap)).
Qed.

(** ** The ledgers *)

Lemma push_bounded_room hb l x :
  (Z.of_nat (List.length l) < hb)%Z -> push_bounded (Some hb) l x = l ++ [x].
Proof.
  intros H. unfold push_bounded.
  rewrite length_app. cbn [List.length].
  destruct (Z.gtb_spec (Z.of_nat (List.length l + 1)) hb); [lia | reflexivity].
Qed.

Lemma push_bounded_full hb l x :
  (Z.of_nat (List.length l) >= hb)%Z -> push_bounded (Some hb) l x = tl (l ++ [x]).
Proof.
  intros H. unfold push_bounded.
  rewrite length_app. cbn [List.length].
  destruct (Z.gtb_spec (Z.of_nat (List.length l + 1)) hb); [reflexivity | lia].
Qed.

Lemma push_bounded_none l x : push_bounded None l x = l ++ [x].
Proof. reflexivity. Qed.

Lemma tl_app_one {A} (l : list A) x : l <> [] -> tl (l ++ [x]) = tl l ++ [x].
Proof. destruct l; [congruence | reflexivity]. Qed.

Lemma length_tl {A} (l : list A) : List.length (tl l) = List.length l - 1.
Proof. destruct l; cbn; lia. Qed.

Lemma push_bounded_within hb l x :
  (0 <= hb)%Z -> within hb l -> within hb (push_bounded (Some hb) l x).
Proof.
  intros H0 Hl. unfold within, push_bounded, Snapshot, Obj in *.
  rewrite length_app. cbn [List.length].
  destruct (Z.gtb_spec (Z.of_nat (List.length l + 1)) hb).
  - rewrite length_tl, length_app. cbn [List.length]. lia.
  - rewrite length_app. cbn [List.length]. lia.
Qed.

(** C3. Every accepted write to a registered field, made while history is
    recorded, pushes the snapshot taken before the write on the undo
    ledger: the ledger grows by one entry while it is below
    [historyBuffer]; at [historyBuffer] its length stays and its oldest
    entry is dropped.  The redo ledger is empty afterwards. *)
Theorem accepted_write_history s w hb :
  updateHistory s = true ->
  historyBuffer (opts s) = Some hb ->
  (0 < hb)%Z ->
  within hb (history_undo s) ->
  accepted s w = true ->
  exists snap,
    JSON_copy_state (state s) = inr snap /\
    (List.length (history_undo s) < Z.to_nat hb ->
     history_undo (exec (write w) s) = history_undo s ++ [snap]) /\
    (List.length (history_undo s) = Z.to_nat hb ->
     history_undo (exec (write w) s) = tl (history_undo s) ++ [snap]) /\
    List.length (history_undo (exec (write w) s)) =
      Nat.min (S (List.length (history_undo s))) (Z.to_nat hb) /\
    history_redo (exec (write w) s) = [].
Proof.
  intros Hu Hhb Hpos Hwithin Hacc. unfold within in Hwithin.
  destruct (write_accepted_store _ _ Hacc) as (snap & v & Hc & _ & ->).
  exists snap. split; [exact Hc|].
  unfold committed. rewrite Hu, Hhb. store_simpl.
  split; [|split; [|split]]; try reflexivity.
  - intros Hlt. apply push_bounded_room. lia.
  - intros Heq. rewrite push_bounded_full by lia.
    apply tl_app_one. intros E. rewrite E in Heq. cbn in Heq. lia.
  - destruct (Z.ltb_spec (Z.of_nat (List.length (history_undo s))) hb).
    + rewrite push_bounded_room by lia. rewrite length_app.
      cbn [List.length]. unfold Snapshot, Obj in *. lia.
    + rewrite push_bounded_full by lia.
      rewrite length_tl, length_app. cbn [List.length].
      unfold Snapshot, Obj in *. lia.
Qed.

Lemma accepted_write_history_witness :
  exists snap,
    JSON_copy_state (state Examples.system_store) = inr snap /\
    history_undo Examples.system_written = [snap] /\
    history_redo Examples.system_written = [].
Proof.
  destruct (accepted_write_history Examples.system_store
              (WTop "system" Examples.SYSTEM_STATE_2) 20)
    as (snap & Hc & Hlt & _ & _ & Hr);
    [reflexivity | reflexivity | lia | unfold within; cbn; lia | reflexivity |].
  exists snap. split; [exact Hc|]. split; [|exact Hr].
  apply Hlt. cbn. lia.
Defined.

(** ** Replaying a snapshot *)

Lemma fields_ok_clean s e : fields_ok s e = true -> clean_obj e = true.
Proof.
  unfold fields_ok, clean_obj. induction e as [|[k v] e IH]; cbn; [reflexivity|].
  intros H. apply andb_true_iff in H as [H1 H2].
  apply andb_true_iff in H1 as [H1 _]. now rewrite H1, IH.
Qed.

Lemma clean_obj_app a b : clean_obj (a ++ b) = clean_obj a && clean_obj b.
Proof. unfold clean_obj. apply forallb_app. Qed.

Lemma rule_accepts_inv s f v :
  rule_accepts s f v = true ->
  exists rule, obj_get (schema s) f = Some (Some rule) /\
               rule_validate rule (strict (opts s)) v = None.
Proof.
  unfold rule_accepts. destruct (obj_get (schema s) f) as [[rule|]|]; try discriminate.
  destruct (rule_validate rule (strict (opts s)) v) eqn:E; [discriminate|].
  eauto.
Qed.

Lemma forallb_includes_self keys extra :
  forallb (includes (extra ++ keys)) keys = true.
Proof.
  apply forallb_forall. intros k Hk. apply includes_In, in_or_app. now right.
Qed.

(** The loop of [updateUndoRedoState] from the point where the fields of
    [done] have been put back and those of [todo] have not. *)
Lemma replay_loop s0 p : forall todo done old s,
  p = done ++ todo ->
  state s = done ++ old ->
  obj_keys old = obj_keys todo ->
  NoDup (obj_keys p) ->
  clean_obj done = true ->
  clean_obj old = true ->
  fields_ok s0 todo = true ->
  schema s = schema s0 -> opts s = opts s0 ->
  onChangeCallbacks s = onChangeCallbacks s0 ->
  forEach (obj_keys todo) (fun field =>
     modify (with_updateHistory false) ;;
     stateRegisterProxySetter field (or_undefined (obj_get p field))) s =
  (with_state p (match todo with [] => s | _ => with_updateHistory false s end),
   replay_events s0 todo, inr tt).
Proof.
  induction todo as [|[f v] todo IH]; intros done old s Hp Hst Hk Hnd Hcd Hco Hok Hsc Hop Hcb.
  - destruct old; [|discriminate]. rewrite app_nil_r in Hp, Hst. subst p.
    cbn [obj_keys map forEach replay_events flat_map]. unfold ret.
    rewrite <- Hst. destruct s; reflexivity.
  - destruct old as [|[f' v'] old]; [discriminate|].
    cbn [obj_keys map fst] in Hk. injection Hk as -> Hk.
    cbn [obj_keys map forEach fst].
    unfold fields_ok in Hok. cbn [forallb fst snd] in Hok.
    apply andb_true_iff in Hok as [Hv Hok].
    apply andb_true_iff in Hv as [Hcv Hrv].
    destruct (rule_accepts_inv _ _ _ Hrv) as (rule & Hrule & Hval).
    assert (Hnf : ~ In f (obj_keys done)).
    { subst p. unfold obj_keys in *. rewrite map_app in Hnd. cbn in Hnd.
      apply NoDup_remove_2 in Hnd. intros Hin. apply Hnd, in_or_app. now left. }
    assert (Hget : obj_get p f = Some v) by (subst p; now apply obj_get_app).
    cbn [clean_obj forallb snd] in Hco. unfold clean_obj in Hco.
    cbn [forallb snd] in Hco. apply andb_true_iff in Hco as [Hcv' Hco].
    repeat step. rewrite Hget. cbn [or_undefined].
    erewrite bind_run.
    2:{ apply (stateRegisterProxySetter_accept _ f v (state s) rule).
        - store_simpl. apply JSON_copy_state_clean. rewrite Hst, clean_obj_app.
          rewrite Hcd. unfold clean_obj. cbn [forallb snd]. now rewrite Hcv', Hco.
        - store_simpl. now rewrite Hsc.
        - store_simpl. now rewrite Hop.
        - now apply wrap_clean. }
    unfold committed. store_simpl.
    rewrite (IH (done ++ [(f, v)]) old).
    + unfold store_of, events_of, result_of. cbn [fst snd].
      apply run_eq; [| |reflexivity].
      * destruct todo; reflexivity.
      * cbn [replay_events flat_map fst snd]. f_equal.
        unfold accepted_top_events, subscribers. store_simpl.
        now rewrite Hop, Hcb.
    + now rewrite <- app_assoc.
    + store_simpl. rewrite Hst. rewrite (obj_set_app _ _ _ _ _ Hnf).
      now rewrite <- app_assoc.
    + exact Hk.
    + exact Hnd.
    + rewrite clean_obj_app, Hcd. unfold clean_obj. cbn. now rewrite Hcv.
    + exact Hco.
    + exact Hok.
    + exact Hsc.
    + exact Hop.
    + exact Hcb.
Qed.

Lemma updateUndoRedoState_replay s p :
  obj_keys p = obj_keys (state s) ->
  NoDup (obj_keys (state s)) ->
  clean_obj (state s) = true ->
  fields_ok s p = true ->
  updateUndoRedoState p s = (restored s p, replay_events s p, inr tt).
Proof.
  intros Hk Hnd Hc Hok. unfold updateUndoRedoState. step.
  rewrite <- Hk.
  pose proof (forallb_includes_self (obj_keys p) []) as Hsame.
  cbn [app] in Hsame. rewrite Hsame. cbn [negb].
  erewrite bind_run.
  2:{ apply (replay_loop s p p [] (state s) s); auto.
      now rewrite Hk. }
  repeat step. unfold restored, store_of, events_of, result_of. cbn [fst snd].
  apply run_eq; [|now rewrite app_nil_r|reflexivity].
  destruct p; reflexivity.
Qed.

(** ** Well-formed stores *)

Lemma entry_ok_inv s e :
  entry_ok s e = true ->
  obj_keys e = obj_keys (state s) /\ fields_ok s e = true.
Proof.
  unfold entry_ok. intros H. apply andb_true_iff in H as [H1 H2].
  apply keys_eqb_eq in H1. auto.
Qed.

Lemma entry_ok_intro s e :
  obj_keys e = obj_keys (state s) -> fields_ok s e = true -> entry_ok s e = true.
Proof.
  unfold entry_ok. intros H1 H2. apply andb_true_iff. split; [|exact H2].
  now apply keys_eqb_eq.
Qed.

Lemma entry_ok_ext s1 s2 e :
  schema s1 = schema s2 -> opts s1 = opts s2 ->
  obj_keys (state s1) = obj_keys (state s2) ->
  entry_ok s1 e = entry_ok s2 e.
Proof.
  intros Hs Ho Hk. unfold entry_ok, fields_ok, rule_accepts. now rewrite Hs, Ho, Hk.
Qed.

Lemma settled_inv s :
  settled s = true ->
  NoDup (obj_keys (state s)) /\
  forallb (fun kr => includes (obj_keys (state s)) (fst kr)) (schema s) = true /\
  entry_ok s (state s) = true /\
  forallb (entry_ok s) (history_undo s) = true /\
  forallb (entry_ok s) (history_redo s) = true /\
  room s = true.
Proof.
  unfold settled. intros H.
  repeat (apply andb_true_iff in H as [H ?]).
  repeat split; auto. now apply nodupb_NoDup.
Qed.

Lemma settled_intro s :
  NoDup (obj_keys (state s)) ->
  forallb (fun kr => includes (obj_keys (state s)) (fst kr)) (schema s) = true ->
  entry_ok s (state s) = true ->
  forallb (entry_ok s) (history_undo s) = true ->
  forallb (entry_ok s) (history_redo s) = true ->
  room s = true ->
  settled s = true.
Proof.
  intros H2 H3 H4 H5 H6 H7. unfold settled.
  apply nodupb_NoDup in H2. now rewrite H2, H3, H4, H5, H6, H7.
Qed.

Lemma well_formed_inv s :
  well_formed s = true ->
  updateHistory s = true /\
  NoDup (obj_keys (state s)) /\
  forallb (fun kr => includes (obj_keys (state s)) (fst kr)) (schema s) = true /\
  entry_ok s (state s) = true /\
  forallb (entry_ok s) (history_undo s) = true /\
  forallb (entry_ok s) (history_redo s) = true /\
  room s = true.
Proof.
  unfold well_formed. intros H. apply andb_true_iff in H as [H1 H2].
  split; [exact H1 | now apply settled_inv].
Qed.

Lemma well_formed_intro s :
  updateHistory s = true ->
  NoDup (obj_keys (state s)) ->
  forallb (fun kr => includes (obj_keys (state s)) (fst kr)) (schema s) = true ->
  entry_ok s (state s) = true ->
  forallb (entry_ok s) (history_undo s) = true ->
  forallb (entry_ok s) (history_redo s) = true ->
  room s = true ->
  well_formed s = true.
Proof.
  intros H1 H2 H3 H4 H5 H6 H7. unfold well_formed.
  now rewrite H1, settled_intro.
Qed.

Lemma well_formed_clean s : well_formed s = true -> clean_obj (state s) = true.
Proof.
  intros H. apply well_formed_inv in H as (_ & _ & _ & H & _).
  apply entry_ok_inv in H as [_ H]. now apply fields_ok_clean in H.
Qed.

Lemma last_map_app {A B} (f : A -> B) (l : list A) x d :
  last (map f (l ++ [x])) d = f x.
Proof. rewrite map_app. cbn. apply last_last. Qed.

(** [undo()] on a well-formed store whose undo ledger ends with [p]. *)
Lemma undo_run s u p :
  well_formed s = true ->
  history_undo s = u ++ [p] ->
  undo s =
  (restored (with_redo (history_redo s ++ [state s]) (with_undo u s)) p,
   replay_events s p, inr tt).
Proof.
  intros Hwf Hu.
  pose proof (well_formed_clean _ Hwf) as Hclean.
  apply well_formed_inv in Hwf as (Huh & Hnd & Hsch & Hst & Hun & Hre & Hroom).
  unfold undo. step. rewrite Hu, length_app. cbn [List.length].
  replace (Nat.eqb (List.length u + 1) 0) with false
    by (symmetry; apply Nat.eqb_neq; lia).
  unfold updateUndoHistory, updateRedoHistory, copy_arg, pop_undo.
  repeat step. rewrite (JSON_copy_state_clean _ Hclean). repeat step.
  rewrite Hu, removelast_last, last_map_app.
  rewrite (bind_silent _ _ _ _ _ (addRedo_run _ _)). store_simpl. rewrite Huh.
  assert (Hp : entry_ok s p = true).
  { rewrite Hu, forallb_app in Hun. apply andb_true_iff in Hun as [_ Hun].
    cbn in Hun. now rewrite andb_true_r in Hun. }
  apply entry_ok_inv in Hp as [Hk Hok].
  assert (Hpush : push_bounded (historyBuffer (opts s)) (history_redo s) (state s)
                  = history_redo s ++ [state s]).
  { unfold room in Hroom. destruct (historyBuffer (opts s)) as [hb|]; [|reflexivity].
    apply push_bounded_room. apply Z.leb_le in Hroom.
    rewrite Hu, length_app in Hroom. cbn [List.length] in Hroom.
    unfold Snapshot, Obj in *. lia. }
  rewrite Hpush.
  rewrite updateUndoRedoState_replay; auto.
Qed.

(** [redo()] on a well-formed store whose redo ledger ends with [p]. *)
Lemma redo_run s r p :
  well_formed s = true ->
  history_redo s = r ++ [p] ->
  redo s =
  (restored (with_undo (history_undo s ++ [state s]) (with_redo r s)) p,
   replay_events s p, inr tt).
Proof.
  intros Hwf Hr.
  pose proof (well_formed_clean _ Hwf) as Hclean.
  apply well_formed_inv in Hwf as (Huh & Hnd & Hsch & Hst & Hun & Hre & Hroom).
  unfold redo. step. rewrite Hr, length_app. cbn [List.length].
  replace (Nat.eqb (List.length r + 1) 0) with false
    by (symmetry; apply Nat.eqb_neq; lia).
  unfold updateUndoHistory, updateRedoHistory, copy_arg, removeRedo.
  repeat step. rewrite (JSON_copy_state_clean _ Hclean). repeat step.
  rewrite Hr, removelast_last, last_map_app.
  rewrite (bind_silent _ _ _ _ _ (addUndo_run _ _)). store_simpl. rewrite Huh.
  assert (Hp : entry_ok s p = true).
  { rewrite Hr, forallb_app in Hre. apply andb_true_iff in Hre as [_ Hre].
    cbn in Hre. now rewrite andb_true_r in Hre. }
  apply entry_ok_inv in Hp as [Hk Hok].
  assert (Hpush : push_bounded (historyBuffer (opts s)) (history_undo s) (state s)
                  = history_undo s ++ [state s]).
  { unfold room in Hroom. destruct (historyBuffer (opts s)) as [hb|]; [|reflexivity].
    apply push_bounded_room. apply Z.leb_le in Hroom.
    rewrite Hr, length_app in Hroom. cbn [List.length] in Hroom.
    unfold Snapshot, Obj in *. lia. }
  rewrite Hpush.
  rewrite updateUndoRedoState_replay; auto.
Qed.

Lemma undo_empty s : history_undo s = [] -> undo s = (s, [], inr tt).
Proof. intros H. unfold undo. step. rewrite H. reflexivity. Qed.

Lemma redo_empty s : history_redo s = [] -> redo s = (s, [], inr tt).
Proof. intros H. unfold redo. step. rewrite H. reflexivity. Qed.

Lemma forallb_entry_ok_ext s1 s2 l :
  schema s1 = schema s2 -> opts s1 = opts s2 ->
  obj_keys (state s1) = obj_keys (state s2) ->
  forallb (entry_ok s1) l = forallb (entry_ok s2) l.
Proof.
  intros Hs Ho Hk. induction l as [|e l IH]; cbn; [reflexivity|].
  now rewrite IH, (entry_ok_ext s1 s2 e Hs Ho Hk).
Qed.

Lemma undo_well_formed s u p :
  well_formed s = true ->
  history_undo s = u ++ [p] ->
  well_formed (exec undo s) = true.
Proof.
  intros Hwf Hu. unfold exec. rewrite (undo_run s u p Hwf Hu).
  apply well_formed_inv in Hwf as (Huh & Hnd & Hsch & Hst & Hun & Hre & Hroom).
  rewrite Hu, forallb_app in Hun. apply andb_true_iff in Hun as [Hun Hp].
  cbn [forallb] in Hp. rewrite andb_true_r in Hp.
  pose proof (entry_ok_inv _ _ Hp) as [Hk _].
  cbn [store_of fst]. unfold restored.
  apply well_formed_intro; store_simpl.
  - reflexivity.
  - now rewrite Hk.
  - now rewrite Hk.
  - rewrite <- Hp. apply entry_ok_ext; auto.
  - rewrite <- Hun. apply forallb_entry_ok_ext; auto.
  - rewrite forallb_app. cbn [forallb].
    rewrite (forallb_entry_ok_ext _ s (history_redo s)) by auto.
    rewrite (entry_ok_ext _ s (state s)) by auto.
    now rewrite Hre, Hst.
  - unfold room in *. store_simpl.
    destruct (historyBuffer (opts s)); [|reflexivity].
    rewrite Hu in Hroom. rewrite !length_app in *. cbn [List.length] in *.
    apply Z.leb_le in Hroom. apply Z.leb_le. unfold Snapshot, Obj in *. lia.
Qed.

Lemma redo_well_formed s r p :
  well_formed s = true ->
  history_redo s = r ++ [p] ->
  well_formed (exec redo s) = true.
Proof.
  intros Hwf Hr. unfold exec. rewrite (redo_run s r p Hwf Hr).
  apply well_formed_inv in Hwf as (Huh & Hnd & Hsch & Hst & Hun & Hre & Hroom).
  rewrite Hr, forallb_app in Hre. apply andb_true_iff in Hre as [Hre Hp].
  cbn [forallb] in Hp. rewrite andb_true_r in Hp.
  pose proof (entry_ok_inv _ _ Hp) as [Hk _].
  cbn [store_of fst]. unfold restored.
  apply well_formed_intro; store_simpl.
  - reflexivity.
  - now rewrite Hk.
  - now rewrite Hk.
  - rewrite <- Hp. apply entry_ok_ext; auto.
  - rewrite forallb_app. cbn [forallb].
    rewrite (forallb_entry_ok_ext _ s (history_undo s)) by auto.
    rewrite (entry_ok_ext _ s (state s)) by auto.
    now rewrite Hun, Hst.
  - rewrite <- Hre. apply forallb_entry_ok_ext; auto.
  - unfold room in *. store_simpl.
    destruct (historyBuffer (opts s)); [|reflexivity].
    rewrite Hr in Hroom. rewrite !length_app in *. cbn [List.length] in *.
    apply Z.leb_le in Hroom. apply Z.leb_le. unfold Snapshot, Obj in *. lia.
Qed.








(** ** Setting a store up and writing to it *)






Lemma forallb_obj_set {A} (Q : string * A -> bool) (o : Obj A) k v :
  NoDup (obj_keys o) ->
  Q (k, v) = true ->
  (forall g x, In (g, x) o -> g <> k -> Q (g, x) = true) ->
  forallb Q (obj_set o k v) = true.
Proof.
  induction o as [|[j y] o IH]; cbn; intros Hnd Hq Hrest.
  - now rewrite Hq.
  - inversion Hnd as [|? ? Hnj Hnd']; subst.
    destruct (String.eqb j k) eqn:E; cbn.
    + apply String.eqb_eq in E. subst j. rewrite Hq. cbn.
      apply forallb_forall. intros [g x] Hin. apply Hrest; [now right|].
      intros ->. apply Hnj. apply in_map_iff. exists (k, x). auto.
    + apply String.eqb_neq in E.
      rewrite (Hrest j y (or_introl eq_refl) E). cbn [andb].
      apply IH; [exact Hnd' | exact Hq |].
      intros g x Hin. apply Hrest. now right.
Qed.

Lemma forallb_push_bounded (P : Snapshot -> bool) hb l x :
  forallb P l = true -> P x = true -> forallb P (push_bounded hb l x) = true.
Proof.
  intros Hl Hx.
  assert (H : forallb P (l ++ [x]) = true).
  { rewrite forallb_app, Hl. cbn. now rewrite Hx. }
  unfold push_bounded. destruct hb as [n|]; [|exact H].
  destruct (Z.gtb _ n); [|exact H].
  destruct (l ++ [x]) as [|e t]; [reflexivity|].
  cbn in *. now apply andb_true_iff in H as [_ H].
Qed.

Lemma push_bounded_max hb l x :
  (Z.of_nat (List.length l) <= Z.max 0 hb)%Z ->
  (Z.of_nat (List.length (push_bounded (Some hb) l x)) <= Z.max 0 hb)%Z.
Proof.
  intros Hl. unfold push_bounded, Snapshot, Obj in *.
  destruct (Z.gtb_spec (Z.of_nat (List.length (l ++ [x]))) hb) as [H|H].
  - rewrite length_tl. rewrite length_app in *. cbn [List.length] in *. lia.
  - rewrite length_app in *. cbn [List.length] in *. lia.
Qed.

Lemma rule_accepts_ext s1 s2 f v :
  schema s1 = schema s2 -> opts s1 = opts s2 ->
  rule_accepts s1 f v = rule_accepts s2 f v.
Proof. intros Hs Ho. unfold rule_accepts. now rewrite Hs, Ho. Qed.

Lemma fields_ok_In s e f v :
  fields_ok s e = true -> In (f, v) e ->
  json_clean v = true /\ rule_accepts s f v = true.
Proof.
  unfold fields_ok. intros H Hin.
  rewrite forallb_forall in H. specialize (H _ Hin). cbn in H.
  now apply andb_true_iff in H.
Qed.


Lemma settled_callbacks r u c e s :
  settled (with_callbacks r u c e s) = settled s.
Proof. reflexivity. Qed.




Lemma schema_in_state s f x :
  forallb (fun kr => includes (obj_keys (state s)) (fst kr)) (schema s) = true ->
  obj_get (schema s) f = Some x ->
  In f (obj_keys (state s)).
Proof.
  intros Hsch Hget. apply obj_get_In in Hget.
  rewrite forallb_forall in Hsch. specialize (Hsch _ Hget).
  now apply includes_In in Hsch.
Qed.



(** An accepted write of JSON data keeps a store well formed and leaves
    nothing to redo; when it brings a [null] in, it leaves a store whose
    state cannot be copied any more. *)
Lemma good_write_step s w :
  well_formed s = true -> good_write s w = true ->
  history_redo (exec (write w) s) = [] /\
  (well_formed (exec (write w) s) = true \/
   copyable (state (exec (write w) s)) = false).
Proof.
  intros Hwf Hgood. unfold good_write in Hgood.
  apply andb_true_iff in Hgood as [Hacc Hdv].
  pose proof (well_formed_clean _ Hwf) as Hclean.
  apply well_formed_inv in Hwf as (Huh & Hnd & Hsch & Hst & Hun & Hre & Hroom).
  destruct (accepted_inv _ _ Hacc) as (snap' & v' & rule & _ & Hf' & Hs & Hr & _).
  destruct (write_accepted_store _ _ Hacc) as (snap & v & Hc & Hf & ->).
  rewrite Hf in Hdv, Hf'. injection Hf' as <-.
  rewrite (JSON_copy_state_clean _ Hclean) in Hc. injection Hc as <-.
  unfold committed. rewrite Huh. store_simpl. split; [reflexivity|].
  destruct (has_null v) eqn:Hnull.
  { right. destruct (copyable _) eqn:Hcp; [|reflexivity].
    pose proof (copyable_no_null _ (written_field w) v Hcp
                  (obj_get_In _ _ _ (obj_get_set_same _ _ _))).
    congruence. }
  left. pose proof (json_data_clean _ Hdv Hnull) as Hcv.
  pose proof (schema_in_state _ _ _ Hsch Hs) as Hin.
  pose proof (obj_keys_set_in (state s) (written_field w) v Hin) as Hk.
  apply entry_ok_inv in Hst as Hst'. destruct Hst' as [_ Hok].
  apply well_formed_intro; store_simpl; auto.
  - now rewrite Hk.
  - now rewrite Hk.
  - apply entry_ok_intro; [reflexivity|]. store_simpl.
    unfold fields_ok. apply forallb_obj_set; auto.
    + cbn [fst snd]. rewrite Hcv. cbn. unfold rule_accepts. store_simpl.
      now rewrite Hs, Hr.
    + intros g x Hgx _. cbn [fst snd].
      destruct (fields_ok_In _ _ _ _ Hok Hgx) as [Hcx Hrx].
      rewrite Hcx. cbn [andb]. unfold rule_accepts in *. store_simpl.
      exact Hrx.
  - apply forallb_push_bounded.
    + rewrite <- Hun. apply forallb_entry_ok_ext; auto.
    + rewrite <- Hst. apply entry_ok_ext; auto.
  - unfold room in *. store_simpl.
    destruct (historyBuffer (opts s)) as [hb|]; [|reflexivity].
    apply Z.leb_le in Hroom. apply Z.leb_le. cbn [List.length].
    rewrite Nat.add_0_r. apply push_bounded_max.
    unfold Snapshot, Obj in *. lia.
Qed.






(** ** The ledgers stay within [historyBuffer] *)

Lemma within_removelast hb (l : list Snapshot) :
  within hb l -> within hb (removelast l).
Proof.
  unfold within. intros H.
  destruct l as [|e l]; [exact H|].
  destruct (exists_last (l := e :: l)) as (u & p & E); [discriminate|].
  rewrite E, removelast_last. rewrite E, length_app in H.
  cbn [List.length] in H. unfold Snapshot, Obj in *. lia.
Qed.

Lemma bounded_addUndo hb x : (0 <= hb)%Z -> preserves (bounded hb) (addUndo x).
Proof.
  intros H0 s (Ho & Hu & Hr). rewrite addUndo_run. cbn [store_of fst].
  destruct (updateHistory s); [|now repeat split].
  repeat split; store_simpl; auto. rewrite Ho. now apply push_bounded_within.
Qed.

Lemma bounded_addRedo hb x : (0 <= hb)%Z -> preserves (bounded hb) (addRedo x).
Proof.
  intros H0 s (Ho & Hu & Hr). rewrite addRedo_run. cbn [store_of fst].
  destruct (updateHistory s); [|now repeat split].
  repeat split; store_simpl; auto. rewrite Ho. now apply push_bounded_within.
Qed.

Lemma bounded_clearRedo hb : (0 <= hb)%Z -> preserves (bounded hb) clearRedo.
Proof.
  intros H0 s (Ho & Hu & Hr). rewrite clearRedo_run. cbn [store_of fst].
  destruct (updateHistory s); [|now repeat split].
  repeat split; store_simpl; auto.
Qed.

Lemma bounded_pop_undo hb : preserves (bounded hb) pop_undo.
Proof.
  intros s (Ho & Hu & Hr). unfold pop_undo. repeat step. cbn [store_of fst].
  repeat split; store_simpl; auto. now apply within_removelast.
Qed.

Lemma bounded_removeRedo hb : preserves (bounded hb) removeRedo.
Proof.
  intros s (Ho & Hu & Hr). unfold removeRedo. repeat step. cbn [store_of fst].
  repeat split; store_simpl; auto. now apply within_removelast.
Qed.

Ltac bounded_modify :=
  apply preserves_modify; intros ? (? & ? & ?); repeat split; assumption.

Lemma bounded_stateRegisterProxySetter hb prop value :
  (0 <= hb)%Z -> preserves (bounded hb) (stateRegisterProxySetter prop value).
Proof.
  intros H0. unfold stateRegisterProxySetter, updateUndoHistory, updateRedoHistory.
  keeps; try apply preserves_copy_arg; try apply preserves_validate;
    try apply preserves_callbacks_change; try bounded_modify.
  - now apply bounded_addUndo.
  - now apply bounded_clearRedo.
Qed.

Lemma bounded_stateFieldProxySetter hb baseProp path prop value :
  (0 <= hb)%Z ->
  preserves (bounded hb) (stateFieldProxySetter baseProp path prop value).
Proof.
  intros H0. unfold stateFieldProxySetter, updateUndoHistory, updateRedoHistory.
  keeps; try apply preserves_copy_arg; try apply preserves_validate;
    try apply preserves_callbacks_change; try bounded_modify.
  - now apply bounded_addUndo.
  - now apply bounded_clearRedo.
Qed.

Lemma bounded_updateUndoRedoState hb newState :
  (0 <= hb)%Z -> preserves (bounded hb) (updateUndoRedoState newState).
Proof.
  intros H0. unfold updateUndoRedoState.
  keeps; try bounded_modify. now apply bounded_stateRegisterProxySetter.
Qed.

Lemma bounded_run_op hb o : (0 <= hb)%Z -> preserves (bounded hb) (run_op o).
Proof.
  intros H0. destruct o as [schemaObj stateObj|field|w| | |path cb|cb|cb|cb];
    cbn [run_op].
  - unfold register. keeps; try bounded_modify;
      try apply preserves_callbacks_register.
    now apply bounded_stateRegisterProxySetter.
  - unfold unregister. keeps; try bounded_modify.
    apply preserves_callbacks_unregister.
  - destruct w; cbn [write].
    + now apply bounded_stateRegisterProxySetter.
    + keeps. now apply bounded_stateFieldProxySetter.
  - unfold undo, updateUndoHistory, updateRedoHistory.
    keeps; try apply preserves_copy_arg.
    + apply bounded_pop_undo.
    + now apply bounded_addRedo.
    + now apply bounded_updateUndoRedoState.
  - unfold redo, updateUndoHistory, updateRedoHistory.
    keeps; try apply preserves_copy_arg.
    + apply bounded_removeRedo.
    + now apply bounded_addUndo.
    + now apply bounded_updateUndoRedoState.
  - unfold onChange. bounded_modify.
  - unfold onError. bounded_modify.
  - unfold onRegister. bounded_modify.
  - unfold onUnregister. bounded_modify.
Qed.

(** When [historyBuffer] is given, and when [Joistor] is called without an
    argument, no sequence of operations takes a ledger past it. *)
Lemma history_within_buffer arg hb ops :
  historyBuffer (opts (Joistor arg)) = Some hb ->
  (0 <= hb)%Z ->
  within hb (history_undo (run_ops ops (Joistor arg))) /\
  within hb (history_redo (run_ops ops (Joistor arg))).
Proof.
  intros Hhb H0.
  assert (H : bounded hb (run_ops ops (Joistor arg))).
  { assert (Hinit : bounded hb (Joistor arg)).
    { repeat split; [exact Hhb | |]; unfold within; cbn; lia. }
    revert Hinit. generalize (Joistor arg). clear Hhb.
    induction ops as [|o ops IH]; intros s Hs; [exact Hs|].
    cbn [run_ops fold_left]. apply IH. now apply bounded_run_op. }
  destruct H as (_ & Hu & Hr). auto.
Qed.

(** ** The assignment [state\[prop\] = value] in every case *)

Lemma executeValidationErrorCallbacks_run s error :
  executeValidationErrorCallbacks error s = (s, error_events s error, inr tt).
Proof.
  unfold executeValidationErrorCallbacks, error_events. step.
  induction (onErrorCallbacks s) as [|cb cbs IH]; cbn [forEach flat_map];
    [reflexivity|].
  destruct cb as [|c].
  - destruct (errorLog (opts s)).
    + step. rewrite IH. reflexivity.
    + step. rewrite IH. reflexivity.
  - step. rewrite IH. reflexivity.
Qed.

Lemma stateRegisterProxySetter_store s prop value :
  store_of (stateRegisterProxySetter prop value s) = top_write_store s prop value.
Proof.
  unfold top_write_store.
  destruct (JSON_copy_state (state s)) as [e|snap] eqn:Hc.
  - unfold stateRegisterProxySetter, updateUndoHistory, copy_arg.
    repeat step. rewrite Hc. now repeat step.
  - destruct (obj_get (schema s) prop) as [[rule|]|] eqn:Hs.
    + destruct (rule_validate rule (strict (opts s)) value) as [error|] eqn:Hr.
      * unfold stateRegisterProxySetter, updateUndoHistory, updateRedoHistory, copy_arg.
        repeat step. rewrite Hc. repeat step.
        unfold validate. repeat step. rewrite Hs. unfold validate_argument.
        repeat step. rewrite obj_get_set_same. cbn [or_undefined]. rewrite Hr.
        rewrite (bind_run _ _ _ _ _ _ (executeValidationErrorCallbacks_run _ _)).
        cbn [store_of fst]. repeat step.
        destruct (truthy (or_undefined (obj_get (state s) prop))); reflexivity.
      * rewrite (stateRegisterProxySetter_commit _ _ _ _ _ Hc Hs Hr).
        rewrite store_of_log_first.
        now apply (preserves_callbacks_change (fun x => x = _)).
    + unfold stateRegisterProxySetter, updateUndoHistory, updateRedoHistory, copy_arg.
      repeat step. rewrite Hc. repeat step.
      unfold validate. repeat step. rewrite Hs. now repeat step.
    + unfold stateRegisterProxySetter, updateUndoHistory, updateRedoHistory, copy_arg.
      repeat step. rewrite Hc. repeat step.
      unfold validate. repeat step. rewrite Hs. now repeat step.
Qed.

(** A write to a field without schema: the rule engine is not consulted,
    the value stays in the state and the setter throws. *)
Lemma unknown_field_write s prop value :
  copyable (state s) = true ->
  obj_get (schema s) prop = None ->
  stateRegisterProxySetter prop value s =
  (with_state (obj_set (state s) prop value) s,
   [EvConsoleLog ("No schema for " ++ prop)%string], inl TypeError).
Proof.
  unfold copyable. intros Hc Hs.
  destruct (JSON_copy_state (state s)) as [e|snap] eqn:E; [discriminate|].
  unfold stateRegisterProxySetter, updateUndoHistory, updateRedoHistory, copy_arg.
  repeat step. rewrite E. repeat step.
  unfold validate. repeat step. rewrite Hs. now repeat step.
Qed.

Lemma obj_set_back {A} (o : Obj A) k v old :
  obj_get o k = Some old -> obj_set (obj_set o k v) k old = o.
Proof.
  induction o as [|[j x] o IH]; cbn; [discriminate|].
  destruct (String.eqb j k) eqn:E; cbn; rewrite E.
  - intros H. injection H as ->. reflexivity.
  - intros H. now rewrite IH.
Qed.

Lemma obj_delete_new {A} (o : Obj A) k v :
  obj_get o k = None -> obj_delete (obj_set o k v) k = o.
Proof.
  induction o as [|[j x] o IH]; cbn.
  - now rewrite String.eqb_refl.
  - destruct (String.eqb j k) eqn:E; cbn; rewrite E; [discriminate|].
    intros H. now rewrite IH.
Qed.

(** A rejected assignment [state\[prop\] = value] puts the store back as
    it was when the field held a truthy value, or did not exist. *)
Lemma rejected_top_write_restores s prop value :
  copyable (state s) = true ->
  rule_rejects s prop value = true ->
  match obj_get (state s) prop with
  | Some old => truthy old = true
  | None => True
  end ->
  exec (stateRegisterProxySetter prop value) s = s.
Proof.
  unfold copyable, rule_rejects, exec. intros Hc Hr Hold.
  rewrite stateRegisterProxySetter_store. unfold top_write_store.
  destruct (JSON_copy_state (state s)); [discriminate|].
  destruct (obj_get (schema s) prop) as [[rule|]|]; try discriminate.
  destruct (rule_validate rule (strict (opts s)) value); [|discriminate].
  store_simpl.
  destruct (obj_get (state s) prop) as [old|] eqn:Hg; cbn [or_undefined].
  - rewrite Hold, (obj_set_back _ _ _ _ Hg). now destruct s.
  - cbn [truthy]. rewrite (obj_delete_new _ _ _ Hg). now destruct s.
Qed.

(** ** Replay and registration leave the ledgers alone *)

Lemma top_write_store_frame s prop value :
  opts (top_write_store s prop value) = opts s /\
  schema (top_write_store s prop value) = schema s /\
  onChangeCallbacks (top_write_store s prop value) = onChangeCallbacks s /\
  updateHistory (top_write_store s prop value) = updateHistory s /\
  (forall g, g <> prop ->
     obj_get (state (top_write_store s prop value)) g = obj_get (state s) g) /\
  (updateHistory s = false ->
   history_undo (top_write_store s prop value) = history_undo s /\
   history_redo (top_write_store s prop value) = history_redo s).
Proof.
  unfold top_write_store, committed.
  destruct (JSON_copy_state (state s)) as [e|snap]; [repeat split; auto|].
  destruct (obj_get (schema s) prop) as [[rule|]|].
  - destruct (rule_validate rule (strict (opts s)) value).
    + destruct (truthy (or_undefined (obj_get (state s) prop)));
        store_simpl; repeat split; auto; intros g Hg.
      * now rewrite !obj_get_set_other by congruence.
      * rewrite obj_get_delete_other by congruence.
        now rewrite obj_get_set_other by congruence.
    + destruct (updateHistory s) eqn:Hu; store_simpl; repeat split; auto;
        try discriminate; intros g Hg; now rewrite obj_get_set_other by congruence.
  - store_simpl. repeat split; auto. intros g Hg.
    now rewrite obj_get_set_other by congruence.
  - store_simpl. repeat split; auto. intros g Hg.
    now rewrite obj_get_set_other by congruence.
Qed.






Lemma top_write_store_accept s prop value :
  copyable (state s) = true ->
  rule_accepts s prop value = true ->
  obj_get (state (top_write_store s prop value)) prop = Some value.
Proof.
  unfold copyable, rule_accepts, top_write_store. intros Hc Hr.
  destruct (JSON_copy_state (state s)); [discriminate|].
  destruct (obj_get (schema s) prop) as [[rule|]|]; try discriminate.
  destruct (rule_validate rule (strict (opts s)) value); [discriminate|].
  rewrite state_committed. apply obj_get_set_same.
Qed.

(** C10. [register(schemaObj, stateObj)] registers the first key of
    [schemaObj] and nothing else: the rule of that key is put in the
    schema; no other entry of the schema or of the state changes, whatever
    further keys [schemaObj] and [stateObj] have, and the ledgers are left
    as they were.  The state gets the default value of that key when the
    rule accepts it. *)
Theorem register_first_key_only s field rule rest stateObj :
  obj_get (schema (exec (register ((field, rule) :: rest) stateObj) s)) field
    = Some (Some rule) /\
  (forall g, g <> field ->
     obj_get (schema (exec (register ((field, rule) :: rest) stateObj) s)) g
       = obj_get (schema s) g /\
     obj_get (state (exec (register ((field, rule) :: rest) stateObj) s)) g
       = obj_get (state s) g) /\
  (copyable (state s) = true ->
   rule_validate rule (strict (opts s)) (or_undefined (obj_get stateObj field))
     = None ->
   obj_get (state (exec (register ((field, rule) :: rest) stateObj) s)) field
     = Some (or_undefined (obj_get stateObj field))) /\
  history_undo (exec (register ((field, rule) :: rest) stateObj) s)
    = history_undo s /\
  history_redo (exec (register ((field, rule) :: rest) stateObj) s)
    = history_redo s.
Proof.
  unfold exec, register. cbn [obj_keys map fst obj_get].
  rewrite String.eqb_refl. repeat step.
  rewrite store_of_bind, stateRegisterProxySetter_store.
  match goal with
  | |- context [top_write_store ?s0 ?f ?v] =>
      destruct (top_write_store_frame s0 f v) as (Ho & Hs & Hc & Hu & Hst & Hl);
      destruct (Hl eq_refl) as [Hlu Hlr]; clear Hl;
      pose proof (top_write_store_accept s0 f v) as Hacc;
      set (s1 := top_write_store s0 f v) in *
  end.
  store_simpl.
  assert (Hfin : forall x, store_of (x : Run unit) = s1 \/
                           store_of x = with_updateHistory true s1 ->
            obj_get (schema (store_of x)) field = Some (Some rule) /\
            (forall g, g <> field ->
               obj_get (schema (store_of x)) g = obj_get (schema s) g /\
               obj_get (state (store_of x)) g = obj_get (state s) g) /\
            (copyable (state s) = true ->
             rule_validate rule (strict (opts s))
               (or_undefined (obj_get stateObj field)) = None ->
             obj_get (state (store_of x)) field
               = Some (or_undefined (obj_get stateObj field))) /\
            history_undo (store_of x) = history_undo s /\
            history_redo (store_of x) = history_redo s).
  { intros x [-> | ->]; store_simpl; rewrite Hs, Hlu, Hlr;
      (split; [apply obj_get_set_same|]); (split; [|split; [|auto]]);
      try (intros g Hg; rewrite Hst by exact Hg;
           split; [apply obj_get_set_other; congruence | reflexivity]);
      intros Hcp Hrv; rewrite Hacc; auto;
      unfold rule_accepts; store_simpl;
      now rewrite obj_get_set_same, Hrv. }
  destruct (result_of _).
  - specialize (Hfin (s1, [], inr tt)). cbn [store_of fst] in Hfin. auto.
  - repeat step.
    specialize (Hfin (with_updateHistory true s1, [], inr tt)).
    cbn [store_of fst] in Hfin.
    rewrite (preserves_callbacks_register (fun x => x = _) _ eq_refl). auto.
Qed.

Lemma register_first_key_only_witness :
  obj_keys (schema (exec (register
     [("user"%string, Examples.system_rule); ("admin"%string, Examples.number_rule)]
     [("admin"%string, VNum 1); ("user"%string, Examples.SYSTEM_STATE_1)])
     (Joistor None))) = ["user"%string] /\
  obj_get (state (exec (register
     [("user"%string, Examples.system_rule); ("admin"%string, Examples.number_rule)]
     [("admin"%string, VNum 1); ("user"%string, Examples.SYSTEM_STATE_1)])
     (Joistor None))) "user" = Some Examples.SYSTEM_STATE_1 /\
  obj_get (state (exec (register
     [("user"%string, Examples.system_rule); ("admin"%string, Examples.number_rule)]
     [("admin"%string, VNum 1); ("user"%string, Examples.SYSTEM_STATE_1)])
     (Joistor None))) "admin" = None.
Proof.
  destruct (register_first_key_only (Joistor None) "user" Examples.system_rule
              [("admin"%string, Examples.number_rule)]
              [("admin"%string, VNum 1); ("user"%string, Examples.SYSTEM_STATE_1)])
    as (_ & Hother & Hdefault & _).
  split; [reflexivity|]. split.
  - exact (Hdefault eq_refl eq_refl).
  - destruct (Hother "admin"%string) as [_ H]; [discriminate | exact H].
Defined.

(** ** What the rollback of a nested write restores *)

Lemma arr_set_length l i v :
  i < List.length l -> List.length (arr_set l i v) = List.length l.
Proof.
  intros H. unfold arr_set.
  destruct (Nat.ltb_spec i (List.length l)); [|lia].
  rewrite length_app, firstn_length_le by lia. cbn [List.length].
  rewrite length_skipn. lia.
Qed.

Lemma arr_set_nth l i v : nth i (arr_set l i v) VUndef = v.
Proof.
  unfold arr_set. destruct (Nat.ltb_spec i (List.length l)).
  - rewrite app_nth2; rewrite firstn_length_le by lia; [|lia].
    now rewrite Nat.sub_diag.
  - rewrite app_nth2 by lia. rewrite app_nth2; rewrite repeat_length; [|lia].
    now rewrite Nat.sub_diag.
Qed.

Lemma skipn_cons_nth {A} (l : list A) d : forall i,
  i < List.length l -> skipn i l = nth i l d :: skipn (S i) l.
Proof.
  induction l as [|a l IH]; intros [|i] H; cbn in *; try lia; [reflexivity|].
  apply IH. lia.
Qed.

Lemma arr_set_back l i v :
  i < List.length l -> arr_set (arr_set l i v) i (nth i l VUndef) = l.
Proof.
  intros H. unfold arr_set at 1. rewrite arr_set_length by exact H.
  destruct (Nat.ltb_spec i (List.length l)); [|lia].
  unfold arr_set. destruct (Nat.ltb_spec i (List.length l)); [|lia].
  rewrite firstn_app, firstn_firstn, Nat.min_id.
  rewrite firstn_length_le by lia. rewrite Nat.sub_diag. cbn [firstn].
  rewrite app_nil_r.
  rewrite skipn_app, firstn_length_le by lia.
  rewrite (skipn_all2 (firstn i l)) by (rewrite firstn_length_le; lia).
  replace (S i - i) with 1 by lia.
  change (skipn 1 (v :: skipn (S i) l)) with (skipn (S i) l). cbn [app].
  rewrite <- (skipn_cons_nth l VUndef i H).
  apply firstn_skipn.
Qed.

Lemma prop_get_set obj k v obj' :
  prop_set obj k v = Some obj' -> prop_get obj' k = v.
Proof.
  destruct obj, k; cbn; intros H; try discriminate; injection H as <-; cbn.
  - apply arr_set_nth.
  - now rewrite obj_get_set_same.
Qed.

Lemma prop_set_back obj k v obj' :
  has_prop obj k = true ->
  prop_set obj k v = Some obj' ->
  prop_set obj' k (prop_get obj k) = Some obj.
Proof.
  destruct obj as [| | | | |items|props], k as [name|i]; cbn;
    intros Hp H; try discriminate; injection H as <-; cbn.
  - apply Nat.ltb_lt in Hp. now rewrite arr_set_back.
  - apply includes_In, obj_get_keys in Hp as [old Hold].
    rewrite Hold. cbn. now rewrite (obj_set_back _ _ _ _ Hold).
Qed.

Lemma container_has_prop obj k child :
  prop_get obj k = child -> navigate_ok child = true -> has_prop obj k = true.
Proof.
  destruct obj as [| | | | |items|props], k as [name|i]; cbn;
    intros <-; try discriminate.
  - intros H. apply Nat.ltb_lt.
    destruct (Nat.ltb_spec i (List.length items)) as [|Hge]; [assumption|].
    rewrite nth_overflow in H by lia. discriminate.
  - intros H. destruct (obj_get props name) as [x|] eqn:E; [|discriminate].
    apply includes_In, in_map_iff. exists (name, x). split; [reflexivity|].
    now apply obj_get_In.
Qed.

(** Writing the previous value back at a location that existed gives the
    previous field value. *)
Lemma update_at_back : forall path root obj prop value v,
  navigate root path = inr obj ->
  has_prop obj prop = true ->
  update_at root path prop value = Some v ->
  update_at v path prop (prop_get obj prop) = Some root.
Proof.
  induction path as [|j rest IH]; intros root obj prop value v Hnav Hp Hup.
  - cbn [update_at] in *.
    assert (obj = root) as -> by (destruct root; cbn in Hnav; congruence).
    now apply (prop_set_back root prop value v).
  - cbn [update_at] in *.
    assert (Hchild : navigate (prop_get root j) rest = inr obj /\
                     navigate_ok (prop_get root j) = true).
    { destruct root; cbn [navigate] in Hnav; try discriminate;
        unfold stateFieldProxyGetter in Hnav;
        destruct (prop_get _ j) eqn:E; cbn in Hnav |- *; try discriminate;
        destruct rest; cbn in Hnav; try discriminate; auto. }
    destruct Hchild as [Hnav' Hok].
    destruct (update_at (prop_get root j) rest prop value) as [child'|] eqn:Hc;
      [|discriminate].
    rewrite (prop_get_set _ _ _ _ Hup).
    rewrite (IH _ _ _ _ _ Hnav' Hp Hc).
    apply (prop_set_back root j child' v); [|exact Hup].
    now apply (container_has_prop root j (prop_get root j)).
Qed.

(** A rejected assignment inside a field puts the store back as it was
    when the assigned location existed before. *)
Lemma rejected_nested_write_restores s baseProp path prop value root obj v :
  copyable (state s) = true ->
  obj_get (state s) baseProp = Some root ->
  navigate root path = inr obj ->
  has_prop obj prop = true ->
  update_at root path prop value = Some v ->
  has_null v = false ->
  rule_rejects s baseProp v = true ->
  exec (stateFieldProxySetter baseProp path prop value) s = s.
Proof.
  unfold copyable, rule_rejects, exec. intros Hc Hroot Hnav Hp Hup Hn Hr.
  destruct (JSON_copy_state (state s)) as [e|snap] eqn:Ec; [discriminate|].
  destruct (obj_get (schema s) baseProp) as [[rule|]|] eqn:Hs; try discriminate.
  destruct (rule_validate rule (strict (opts s)) v) as [error|] eqn:Hv;
    [|discriminate].
  unfold stateFieldProxySetter, updateUndoHistory, updateRedoHistory, copy_arg.
  repeat step. rewrite Ec. repeat step.
  rewrite Hroot. cbn [or_undefined]. rewrite Hnav. repeat step.
  rewrite Hup. repeat step.
  unfold validate. repeat step. rewrite Hs. unfold validate_argument.
  rewrite (stateRegisterProxyGetter_own _ _ _ (obj_get_set_same _ _ _)).
  rewrite (wrap_no_null _ Hn), Hn. repeat step. rewrite Hv.
  rewrite (bind_run _ _ _ _ _ _ (executeValidationErrorCallbacks_run _ _)).
  cbn [store_of fst]. repeat step.
  rewrite (update_at_back _ _ _ _ _ _ Hnav Hp Hup). repeat step.
  cbn [store_of fst]. rewrite (obj_set_back _ _ _ _ Hroot). now destruct s.
Qed.

(** ** What the check of [updateUndoRedoState] stops *)

(** A snapshot that lacks a field of the state is refused before anything
    is written. *)
Lemma updateUndoRedoState_refuses s newState :
  forallb (includes (obj_keys newState)) (obj_keys (state s)) = false ->
  updateUndoRedoState newState s = (s, [], inl FieldsNotSame).
Proof.
  intros H. unfold updateUndoRedoState. step. rewrite H. reflexivity.
Qed.

(** ** The fields of a well-formed store *)

(** In a well-formed store the state and the schema have the same
    fields. *)
Lemma well_formed_key_sets s f :
  well_formed s = true ->
  In f (obj_keys (state s)) <-> In f (obj_keys (schema s)).
Proof.
  intros Hwf.
  apply well_formed_inv in Hwf as (_ & _ & Hsch & Hst & _).
  apply entry_ok_inv in Hst as [_ Hok]. split.
  - intros Hin. apply obj_get_keys in Hin as [v Hv].
    destruct (fields_ok_In _ _ _ _ Hok (obj_get_In _ _ _ Hv)) as [_ Hr].
    apply rule_accepts_inv in Hr as (rule & Hrule & _).
    apply obj_get_In in Hrule. apply in_map_iff. now exists (f, Some rule).
  - intros Hin. apply in_map_iff in Hin as ([g x] & <- & Hin).
    rewrite forallb_forall in Hsch. specialize (Hsch _ Hin).
    now apply includes_In in Hsch.
Qed.

(** ** Where the store departs from its specification *)

(** C1. A rejected write does not always leave the field as it was.  At the
    top level a previous value that is falsy ([0] here) is taken for no
    value and the field is deleted; inside a field a rejected write to a new
    property leaves the property behind, with the value [undefined]. *)
Theorem rejected_write_not_restored :
  (rule_rejects Examples.counter_store "count" (VStr "x") = true /\
   state Examples.counter_store = [("count"%string, VNum 0)] /\
   state (exec (write (WTop "count" (VStr "x"))) Examples.counter_store) = []) /\
  (field_after (state Examples.system_written)
     (WNested "system" [] (KStr "extra") (VBool true)) =
     Some (VObj [("id"%string, VNum 1); ("name"%string, VStr "test");
                 ("extra"%string, VBool true)]) /\
   rule_rejects Examples.system_written "system"
     (VObj [("id"%string, VNum 1); ("name"%string, VStr "test");
            ("extra"%string, VBool true)]) = true /\
   state Examples.system_written =
     [("system"%string,
       VObj [("id"%string, VNum 1); ("name"%string, VStr "test")])] /\
   state (exec (write (WNested "system" [] (KStr "extra") (VBool true)))
            Examples.system_written) =
     [("system"%string,
       VObj [("id"%string, VNum 1); ("name"%string, VStr "test");
             ("extra"%string, VUndef)])]).
Proof. repeat split; reflexivity. Qed.

(** C5. A write to a field that was never registered is not a no-op: the
    rule engine is not consulted, but the value stays in the state and the
    setter ends with a [TypeError]. *)
Theorem unknown_field_write_stays :
  obj_get (schema Examples.system_store) "ghost" = None /\
  events_of (write (WTop "ghost" (VNum 1)) Examples.system_store) =
    [EvConsoleLog "No schema for ghost"] /\
  result_of (write (WTop "ghost" (VNum 1)) Examples.system_store) =
    inl TypeError /\
  state (exec (write (WTop "ghost" (VNum 1))) Examples.system_store) =
    state Examples.system_store ++ [("ghost"%string, VNum 1)].
Proof. repeat split; reflexivity. Qed.

(** C6. With an options object that does not give [historyBuffer], as in
    [Joistor({ errorLog: false })], the ledgers have no bound: 21 accepted
    writes leave 21 entries on the undo ledger. *)
Theorem history_unbounded_without_option :
  historyBuffer (opts Examples.unbounded_store) = None /\
  List.length (history_undo
                 (run_ops (Examples.count_to 21) Examples.unbounded_store)) = 21.
Proof. split; reflexivity. Qed.

(** C8. A snapshot with a field the state no longer has passes the check
    of [updateUndoRedoState], which only looks for the fields of the state
    among those of the snapshot.  The undo then puts the unregistered field
    [b] back in the state, throws a [TypeError] at it and leaves the field
    [a], which comes after it in the snapshot, unrestored. *)
Theorem replay_with_extra_field :
  obj_keys (state Examples.two_then_one) = ["a"%string] /\
  history_undo Examples.two_then_one =
    [[("b"%string, VNum 2); ("a"%string, VNum 1)]] /\
  result_of (undo Examples.two_then_one) = inl TypeError /\
  state (exec undo Examples.two_then_one) =
    [("a"%string, VNum 5); ("b"%string, VNum 2)] /\
  obj_keys (schema (exec undo Examples.two_then_one)) = ["a"%string] /\
  history_undo (exec undo Examples.two_then_one) = [] /\
  updateHistory (exec undo Examples.two_then_one) = false.
Proof. repeat split; reflexivity. Qed.

(** C9. A rejected write can take a field out of the state while its rule
    stays in the schema: the counter registered with [0] is gone after the
    rejected write of a string. *)
Theorem rejected_write_breaks_key_sets :
  obj_keys (state Examples.counter_store) =
    obj_keys (schema Examples.counter_store) /\
  rule_rejects Examples.counter_store "count" (VStr "x") = true /\
  obj_keys (state (exec (write (WTop "count" (VStr "x")))
                     Examples.counter_store)) = [] /\
  obj_keys (schema (exec (write (WTop "count" (VStr "x")))
                      Examples.counter_store)) = ["count"%string].
Proof. repeat split; reflexivity. Qed.

(** * Further properties of the store *)

(** ** Reads through the state proxy *)

(** X1. Reading [state\[prop\]] gives the value of the property: the scan
    of all nested names by [stateFields] never changes the result.  A name
    the state does not have reads as [undefined] without an exception, and
    the read throws a [TypeError] exactly when the value is [null]. *)
Theorem read_through_state_proxy obj prop :
  stateRegisterProxyGetter obj prop =
  match obj_get obj prop with
  | Some VNull => inl TypeError
  | Some v => inr v
  | None => inr VUndef
  end.
Proof.
  destruct (obj_get obj prop) as [v|] eqn:Hg.
  - rewrite (stateRegisterProxyGetter_own _ _ _ Hg). now destruct v.
  - unfold stateRegisterProxyGetter. rewrite Hg.
    now destruct (negb _).
Qed.

Lemma prop_set_container obj k x v :
  prop_set obj k x = Some v -> navigate_ok v = true.
Proof.
  destruct obj, k; cbn; intros H; try discriminate; now injection H as <-.
Qed.

Lemma update_at_container : forall path root k x v,
  update_at root path k x = Some v -> navigate_ok v = true.
Proof.
  intros [|j rest] root k x v; cbn [update_at].
  - apply prop_set_container.
  - destruct (update_at (prop_get root j) rest k x); [|discriminate].
    apply prop_set_container.
Qed.

Lemma navigate_ok_wrap v : navigate_ok v = true -> wrap v = inr v.
Proof. destruct v; cbn; intros H; try discriminate; reflexivity. Qed.

Lemma navigate_step root j rest obj :
  navigate root (j :: rest) = inr obj ->
  navigate (prop_get root j) rest = inr obj /\ navigate_ok root = true.
Proof.
  destruct root; cbn [navigate]; try discriminate;
    unfold stateFieldProxyGetter;
    destruct (wrap (prop_get _ j)) as [e|child] eqn:Hw; try discriminate;
    intros H; (split; [|reflexivity]);
    destruct (prop_get _ j); cbn in Hw; try discriminate;
    injection Hw as <-; exact H.
Qed.

(** The container of a nested assignment is found again, with the
    assignment made, along the same path in the new field value. *)
Lemma navigate_update_at : forall path root obj prop value v,
  navigate root path = inr obj ->
  update_at root path prop value = Some v ->
  exists obj', prop_set obj prop value = Some obj' /\ navigate v path = inr obj'.
Proof.
  induction path as [|j rest IH]; intros root obj prop value v Hnav Hup.
  - cbn [update_at] in Hup.
    assert (obj = root) as -> by (destruct root; cbn in Hnav; congruence).
    exists v. split; [exact Hup|].
    pose proof (prop_set_container _ _ _ _ Hup) as Hc.
    destruct v; cbn in Hc |- *; try discriminate; reflexivity.
  - destruct (navigate_step _ _ _ _ Hnav) as [Hnav' _].
    cbn [update_at] in Hup.
    destruct (update_at (prop_get root j) rest prop value) as [child'|] eqn:Hc;
      [|discriminate].
    destruct (IH _ _ _ _ _ Hnav' Hc) as (obj' & Hset & Hnav'').
    exists obj'. split; [exact Hset|].
    pose proof (prop_set_container _ _ _ _ Hup) as Hv.
    pose proof (update_at_container _ _ _ _ _ Hc) as Hchild.
    destruct v; cbn in Hv; try discriminate; cbn [navigate];
      unfold stateFieldProxyGetter;
      rewrite (prop_get_set _ _ _ _ Hup), (navigate_ok_wrap _ Hchild);
      exact Hnav''.
Qed.

(** X2. An accepted write is what the next read sees: the written field
    then holds the value computed by the assignment, a read of the field
    through the state proxy gives it, every other field is as before, and
    for an assignment inside a field the assigned property is found with
    its new value along the same path. *)
Theorem accepted_write_is_read_back s w v :
  accepted s w = true ->
  field_after (state s) w = Some v ->
  obj_get (state (exec (write w) s)) (written_field w) = Some v /\
  stateRegisterProxyGetter (state (exec (write w) s)) (written_field w)
    = wrap v /\
  (forall g, g <> written_field w ->
     obj_get (state (exec (write w) s)) g = obj_get (state s) g) /\
  match w with
  | WTop _ value => v = value
  | WNested _ path prop value =>
      exists obj, navigate v path = inr obj /\ prop_get obj prop = value
  end.
Proof.
  intros Hacc Hf.
  destruct (write_accepted_store _ _ Hacc) as (snap & v' & _ & Hf' & ->).
  rewrite Hf in Hf'. injection Hf' as <-.
  rewrite state_committed.
  split; [apply obj_get_set_same|].
  split; [apply stateRegisterProxyGetter_own, obj_get_set_same|].
  split; [intros g Hg; apply obj_get_set_other; congruence|].
  destruct w as [prop value | baseProp path prop value];
    cbn [field_after] in Hf.
  - congruence.
  - destruct (navigate (or_undefined (obj_get (state s) baseProp)) path)
      as [e|obj] eqn:Hnav; [discriminate|].
    destruct (navigate_update_at _ _ _ _ _ _ Hnav Hf) as (obj' & Hset & Hnav').
    exists obj'. split; [exact Hnav'|]. now apply (prop_get_set obj prop value).
Qed.

Lemma accepted_write_is_read_back_witness :
  stateRegisterProxyGetter (state Examples.system_written) "system"
    = inr Examples.SYSTEM_STATE_2.
Proof.
  destruct (accepted_write_is_read_back Examples.system_store
              (WTop "system" Examples.SYSTEM_STATE_2) Examples.SYSTEM_STATE_2
              eq_refl eq_refl) as (_ & H & _).
  exact H.
Defined.

(** ** Snapshots *)

Lemma json_copy_data v : forall o,
  json_copy v = inr o ->
  match o with
  | None => v = VUndef
  | Some v' => v <> VUndef /\ json_data v' = true
  end.
Proof.
  induction v as [| |b|n|s|items IH|props IH] using Value_induction;
    cbn [json_copy]; intros o H; try discriminate;
    try (injection H as <-; split; [discriminate | reflexivity]).
  - now injection H as <-.
  - destruct (copy_items json_copy items) as [e|items'] eqn:Hc; [discriminate|].
    injection H as <-. split; [discriminate|]. cbn [json_data].
    revert items' Hc. induction IH as [|x items Hx _ IHl]; cbn; intros items' Hc.
    + now injection Hc as <-.
    + destruct (json_copy x) as [e|ox] eqn:Hx'; [discriminate|].
      destruct (copy_items json_copy items) as [e|rest] eqn:Hr; [discriminate|].
      injection Hc as <-. cbn [forallb]. rewrite (IHl rest eq_refl), andb_true_r.
      specialize (Hx ox eq_refl). destruct ox; [apply Hx | reflexivity].
  - destruct (copy_props json_copy props) as [e|props'] eqn:Hc; [discriminate|].
    injection H as <-. split; [discriminate|]. cbn [json_data].
    revert props' Hc. induction IH as [|[k x] props Hx _ IHl]; cbn; intros props' Hc.
    + now injection Hc as <-.
    + cbn in Hx. destruct (json_copy x) as [e|ox] eqn:Hx'; [discriminate|].
      destruct (copy_props json_copy props) as [e|rest] eqn:Hr; [discriminate|].
      injection Hc as <-. specialize (Hx ox eq_refl).
      destruct ox; cbn [forallb snd]; [|now apply IHl].
      destruct Hx as [_ ->]. now apply IHl.
Qed.

Lemma JSON_copy_state_null st :
  if existsb (fun kv => has_null (snd kv)) st
  then JSON_copy_state st = inl TypeError
  else exists snap, JSON_copy_state st = inr snap.
Proof.
  pose proof (json_copy_null (VObj st)) as H. cbn [has_null json_copy] in H.
  unfold JSON_copy_state.
  destruct (existsb (fun kv => has_null (snd kv)) st).
  - revert H. destruct (copy_props json_copy st); [|discriminate].
    intros H. injection H as ->. reflexivity.
  - destruct H as [o H]. revert H.
    destruct (copy_props json_copy st) as [e|snap]; [discriminate | eauto].
Qed.

Lemma not_copyable_TypeError st :
  copyable st = false -> JSON_copy_state st = inl TypeError.
Proof.
  unfold copyable. intros H. pose proof (JSON_copy_state_null st) as Hn.
  destruct (existsb _ st); [exact Hn|].
  destruct Hn as [snap Hs]. rewrite Hs in H. discriminate.
Qed.

(** X3. The copy of the state taken for the history,
    [JSON.parse(JSON.stringify(state))], throws exactly when a [null]
    occurs somewhere in the state, and then it throws a [TypeError]. *)
Theorem snapshot_throws_on_null st :
  (existsb (fun kv => has_null (snd kv)) st = true ->
   JSON_copy_state st = inl TypeError) /\
  (existsb (fun kv => has_null (snd kv)) st = false ->
   exists snap, JSON_copy_state st = inr snap).
Proof.
  pose proof (JSON_copy_state_null st) as H.
  destruct (existsb (fun kv => has_null (snd kv)) st); split;
    try discriminate; intros _; exact H.
Qed.

Lemma snapshot_throws_on_null_witness :
  JSON_copy_state [("a"%string, VNum 1); ("b"%string, VArr [VNull])]
    = inl TypeError /\
  exists snap, JSON_copy_state [("a"%string, VNum 1)] = inr snap.
Proof.
  split.
  - apply (proj1 (snapshot_throws_on_null
                    [("a"%string, VNum 1); ("b"%string, VArr [VNull])])).
    reflexivity.
  - apply (proj2 (snapshot_throws_on_null [("a"%string, VNum 1)])).
    reflexivity.
Defined.

(** X4. A snapshot holds the fields of the state whose value is not
    [undefined], in the order of the state, and [undefined] occurs nowhere
    in it; a state made of JSON data without [null] is copied as it is. *)
Theorem snapshot_contents st snap :
  JSON_copy_state st = inr snap ->
  obj_keys snap =
    obj_keys (filter (fun kv => negb (is_undefined (snd kv))) st) /\
  forallb (fun kv => json_data (snd kv)) snap = true /\
  (clean_obj st = true -> snap = st).
Proof.
  intros H. split; [|split].
  - unfold JSON_copy_state in H. revert snap H.
    induction st as [|[k x] st IH]; cbn; intros snap H.
    + now injection H as <-.
    + destruct (json_copy x) as [e|ox] eqn:Hx; [discriminate|].
      destruct (copy_props json_copy st) as [e|rest]; [discriminate|].
      injection H as <-. pose proof (json_copy_data x ox Hx) as Hd.
      destruct ox as [y|].
      * destruct Hd as [Hne _].
        destruct x; try congruence; cbn; f_equal; now apply IH.
      * subst x. cbn. now apply IH.
  - pose proof (json_copy_data (VObj st) (Some (VObj snap))) as Hd.
    cbn [json_copy] in Hd. unfold JSON_copy_state in H. rewrite H in Hd.
    now destruct (Hd eq_refl).
  - intros Hc. rewrite (JSON_copy_state_clean _ Hc) in H. congruence.
Qed.

Lemma snapshot_contents_witness :
  obj_keys [("b"%string, VArr [VNull; VNum 1])] =
    obj_keys (filter (fun kv => negb (is_undefined (snd kv)))
                [("a"%string, VUndef); ("b"%string, VArr [VUndef; VNum 1])]) /\
  forallb (fun kv => json_data (snd kv))
    [("b"%string, VArr [VNull; VNum 1])] = true.
Proof.
  destruct (snapshot_contents
              [("a"%string, VUndef); ("b"%string, VArr [VUndef; VNum 1])]
              [("b"%string, VArr [VNull; VNum 1])] eq_refl) as (Hk & Hd & _).
  split; [exact Hk | exact Hd].
Defined.

(** ** The contents of the ledgers *)

(** X5. When [historyBuffer] is given and not negative, or [Joistor] is
    called without an argument, no sequence of operations (rejected writes,
    failed replays and unregistrations included) takes the undo ledger or
    the redo ledger past [historyBuffer] entries. *)
Theorem ledgers_stay_within_buffer arg hb ops :
  historyBuffer (opts (Joistor arg)) = Some hb ->
  (0 <= hb)%Z ->
  (Z.of_nat (List.length (history_undo (run_ops ops (Joistor arg)))) <= hb)%Z /\
  (Z.of_nat (List.length (history_redo (run_ops ops (Joistor arg)))) <= hb)%Z.
Proof. intros Hhb H0. exact (history_within_buffer arg hb ops Hhb H0). Qed.

Lemma ledgers_stay_within_buffer_witness :
  (Z.of_nat (List.length (history_undo
     (run_ops (Examples.setup_system ++ [OpWrite (WTop "system" Examples.SYSTEM_STATE_2);
                                         OpUndo; OpUnregister "system"; OpUndo])
        (Joistor None)))) <= 20)%Z.
Proof.
  apply (ledgers_stay_within_buffer None 20
           (Examples.setup_system ++ [OpWrite (WTop "system" Examples.SYSTEM_STATE_2);
                                      OpUndo; OpUnregister "system"; OpUndo]));
    [reflexivity | lia].
Defined.

Lemma lastn_all {A} n (l : list A) : List.length l <= n -> lastn n l = l.
Proof.
  intros H. unfold lastn. replace (List.length l - n) with 0 by lia. reflexivity.
Qed.

Lemma lastn_tl_app {A} n (m P : list A) :
  n < List.length m -> lastn n (tl m ++ P) = lastn n (m ++ P).
Proof.
  destruct m as [|a m]; cbn [List.length tl]; [lia|]. intros H.
  unfold lastn. cbn [app List.length].
  replace (S (List.length (m ++ P)) - n) with (S (List.length (m ++ P) - n))
    by (rewrite length_app; lia).
  reflexivity.
Qed.

Lemma kept_push hb l x P :
  (forall n, hb = Some n -> (0 <= n)%Z /\ within n l) ->
  kept hb (push_bounded hb l x ++ P) = kept hb (l ++ x :: P).
Proof.
  intros H. destruct hb as [n|]; cbn [kept].
  - destruct (H n eq_refl) as [H0 Hl]. unfold within in Hl.
    replace (l ++ x :: P) with ((l ++ [x]) ++ P) by now rewrite <- app_assoc.
    destruct (Z.ltb_spec (Z.of_nat (List.length l)) n).
    + now rewrite push_bounded_room.
    + rewrite push_bounded_full by lia. apply lastn_tl_app.
      rewrite length_app. cbn [List.length]. unfold Snapshot, Obj in *. lia.
  - rewrite push_bounded_none. now rewrite <- app_assoc.
Qed.

(** X6. After a sequence of accepted writes the undo ledger holds the most
    recent copies of the state taken before the writes, oldest first: the
    previous entries followed by one snapshot per write, cut down to the
    last [historyBuffer] of them (all of them when [historyBuffer] is not
    set). *)
Theorem undo_ledger_holds_latest_snapshots ws : forall s,
  updateHistory s = true ->
  (forall hb, historyBuffer (opts s) = Some hb ->
     (0 <= hb)%Z /\ within hb (history_undo s)) ->
  accepted_writes s ws = true ->
  history_undo (run_writes ws s) =
  kept (historyBuffer (opts s)) (history_undo s ++ pre_snapshots s ws).
Proof.
  induction ws as [|w ws IH]; intros s Hu Hb Hacc.
  - cbn [run_writes fold_left pre_snapshots]. rewrite app_nil_r.
    destruct (historyBuffer (opts s)) as [hb|] eqn:Hhb; [|reflexivity].
    destruct (Hb hb eq_refl) as [H0 Hl]. unfold within in Hl.
    cbn [kept]. rewrite lastn_all; [reflexivity|]. lia.
  - cbn [accepted_writes] in Hacc. apply andb_true_iff in Hacc as [Hw Hacc].
    destruct (write_accepted_store _ _ Hw) as (snap & v & Hc & _ & Hs1).
    cbn [run_writes fold_left pre_snapshots]. rewrite Hc.
    change (fold_left (fun s0 w0 => exec (write w0) s0) ws (exec (write w) s))
      with (run_writes ws (exec (write w) s)).
    assert (Hopts : opts (exec (write w) s) = opts s)
      by (rewrite Hs1; unfold committed; now destruct (updateHistory s)).
    assert (Hundo : history_undo (exec (write w) s) =
                    push_bounded (historyBuffer (opts s)) (history_undo s) snap)
      by (rewrite Hs1; unfold committed; now rewrite Hu).
    rewrite IH; [| rewrite Hs1; unfold committed; now rewrite Hu | | exact Hacc].
    + rewrite Hopts, Hundo. now apply kept_push.
    + intros hb Hhb. rewrite Hopts in Hhb. destruct (Hb hb Hhb) as [H0 Hl].
      split; [exact H0|]. rewrite Hundo, Hhb. now apply push_bounded_within.
Qed.

Lemma undo_ledger_holds_latest_snapshots_witness :
  history_undo
    (run_writes [WTop "count" (VNum 1); WTop "count" (VNum 2); WTop "count" (VNum 3)]
       MoreExamples.tiny_store) =
  [[("count"%string, VNum 1)]; [("count"%string, VNum 2)]].
Proof.
  rewrite (undo_ledger_holds_latest_snapshots
             [WTop "count" (VNum 1); WTop "count" (VNum 2); WTop "count" (VNum 3)]
             MoreExamples.tiny_store eq_refl).
  - reflexivity.
  - intros hb H. injection H as <-. split; [lia | unfold within; cbn; lia].
  - reflexivity.
Defined.

(** ** Rejected writes *)

Lemma error_events_no_change s error :
  existsb is_change (error_events s error) = false.
Proof.
  unfold error_events. induction (onErrorCallbacks s) as [|cb cbs IH]; cbn;
    [reflexivity|].
  rewrite existsb_app, IH. destruct cb; [destruct (errorLog (opts s))|]; reflexivity.
Qed.

(** A rejected assignment [state\[prop\] = value], step by step. *)
Lemma stateRegisterProxySetter_reject s prop value snap rule error :
  JSON_copy_state (state s) = inr snap ->
  obj_get (schema s) prop = Some (Some rule) ->
  rule_validate rule (strict (opts s)) value = Some error ->
  stateRegisterProxySetter prop value s =
  (rolled_back s prop value, rejected_events s prop value error, inr tt).
Proof.
  intros Hc Hs Hr.
  unfold stateRegisterProxySetter, updateUndoHistory, updateRedoHistory, copy_arg.
  repeat step. rewrite Hc. repeat step.
  unfold validate. repeat step. rewrite Hs. unfold validate_argument.
  repeat step. rewrite obj_get_set_same. cbn [or_undefined]. rewrite Hr.
  rewrite (bind_run _ _ _ _ _ _ (executeValidationErrorCallbacks_run _ _)).
  cbn [store_of fst]. repeat step.
  unfold rolled_back, rejected_events, error_events. store_simpl.
  destruct (truthy (or_undefined (obj_get (state s) prop)));
    cbn [log_first store_of events_of result_of fst snd];
    now rewrite app_nil_r.
Qed.

Lemma rolled_back_frame s prop value :
  same_configuration s (rolled_back s prop value) /\
  updateHistory (rolled_back s prop value) = updateHistory s /\
  history_undo (rolled_back s prop value) = history_undo s /\
  history_redo (rolled_back s prop value) = history_redo s /\
  (forall g, g <> prop ->
     obj_get (state (rolled_back s prop value)) g = obj_get (state s) g).
Proof.
  unfold rolled_back, same_configuration.
  destruct (truthy _); store_simpl; repeat split; intros g Hg.
  - now rewrite !obj_get_set_other by congruence.
  - rewrite obj_get_delete_other by congruence.
    now rewrite obj_get_set_other by congruence.
Qed.

Lemma rolled_back_restores s prop value :
  match obj_get (state s) prop with
  | Some old => truthy old = true
  | None => True
  end ->
  rolled_back s prop value = s.
Proof.
  unfold rolled_back. intros Hold.
  destruct (obj_get (state s) prop) as [old|] eqn:Hg; cbn [or_undefined].
  - rewrite Hold, (obj_set_back _ _ _ _ Hg). now destruct s.
  - cbn [truthy]. rewrite (obj_delete_new _ _ _ Hg). now destruct s.
Qed.

(** X7. A rejected assignment [state\[prop\] = value] returns normally.
    The rule engine is consulted once, then the error callbacks are called
    in the order they were added, the logger of the store first, and no
    [onChange] subscriber is called.  The ledgers, the schema, the
    subscriptions and the other fields are untouched, and the store is
    exactly as before when the field held a truthy value or did not
    exist. *)
Theorem rejected_top_write_run s prop value rule error :
  copyable (state s) = true ->
  obj_get (schema s) prop = Some (Some rule) ->
  rule_validate rule (strict (opts s)) value = Some error ->
  result_of (write (WTop prop value) s) = inr tt /\
  events_of (write (WTop prop value) s) =
    EvValidate prop (strict (opts s)) value :: error_events s error /\
  existsb is_change (events_of (write (WTop prop value) s)) = false /\
  same_configuration s (exec (write (WTop prop value)) s) /\
  history_undo (exec (write (WTop prop value)) s) = history_undo s /\
  history_redo (exec (write (WTop prop value)) s) = history_redo s /\
  (forall g, g <> prop ->
     obj_get (state (exec (write (WTop prop value)) s)) g
       = obj_get (state s) g) /\
  (match obj_get (state s) prop with
   | Some old => truthy old = true
   | None => True
   end -> exec (write (WTop prop value)) s = s).
Proof.
  unfold copyable. intros Hc Hs Hr.
  destruct (JSON_copy_state (state s)) as [e|snap] eqn:Ec; [discriminate|].
  unfold exec. cbn [write].
  rewrite (stateRegisterProxySetter_reject _ _ _ _ _ _ Ec Hs Hr).
  cbn [store_of events_of result_of fst snd]. unfold rejected_events.
  destruct (rolled_back_frame s prop value) as (Hcfg & _ & Hu & Hre & Hst).
  repeat split; auto.
  - cbn [existsb is_validate is_change]. apply error_events_no_change.
  - apply Hcfg.
  - apply Hcfg.
  - apply Hcfg.
  - apply Hcfg.
  - apply Hcfg.
  - apply Hcfg.
  - apply rolled_back_restores.
Qed.

Lemma rejected_top_write_run_witness :
  events_of (write (WTop "system" Examples.INVALID_SYSTEM_STATE_1)
               Examples.system_written) =
    [EvValidate "system" false Examples.INVALID_SYSTEM_STATE_1;
     EvConsoleLog "ValidationError"] /\
  exec (write (WTop "system" Examples.INVALID_SYSTEM_STATE_1))
       Examples.system_written = Examples.system_written.
Proof.
  destruct (rejected_top_write_run Examples.system_written "system"
              Examples.INVALID_SYSTEM_STATE_1 Examples.system_rule
              "ValidationError"%string eq_refl eq_refl eq_refl)
    as (_ & He & _ & _ & _ & _ & _ & Hs).
  split; [exact He | exact (Hs eq_refl)].
Defined.

(** X8. A rejected assignment inside a field, to a property or an index the
    container already has, returns normally and leaves the whole store as
    it was; the rule of the owning field is consulted on the whole field
    value, the error callbacks are called and no [onChange] subscriber
    is. *)
Theorem rejected_nested_write_run s baseProp path prop value root obj v rule error :
  copyable (state s) = true ->
  obj_get (state s) baseProp = Some root ->
  navigate root path = inr obj ->
  has_prop obj prop = true ->
  update_at root path prop value = Some v ->
  has_null v = false ->
  obj_get (schema s) baseProp = Some (Some rule) ->
  rule_validate rule (strict (opts s)) v = Some error ->
  write (WNested baseProp path prop value) s =
  (s, EvValidate baseProp (strict (opts s)) v :: error_events s error, inr tt).
Proof.
  unfold copyable. intros Hc Hroot Hnav Hp Hup Hn Hs Hv.
  destruct (JSON_copy_state (state s)) as [e|snap] eqn:Ec; [discriminate|].
  destruct (navigate_container _ _ _ Hnav) as [Hw _].
  cbn [write]. repeat step.
  rewrite (stateRegisterProxyGetter_own _ _ _ Hroot), Hw. repeat step.
  rewrite Hnav. repeat step.
  unfold stateFieldProxySetter, updateUndoHistory, updateRedoHistory, copy_arg.
  repeat step. rewrite Ec. repeat step.
  rewrite Hroot. cbn [or_undefined]. rewrite Hnav. repeat step.
  rewrite Hup. repeat step.
  unfold validate. repeat step. rewrite Hs. unfold validate_argument.
  rewrite (stateRegisterProxyGetter_own _ _ _ (obj_get_set_same _ _ _)).
  rewrite (wrap_no_null _ Hn), Hn. repeat step. rewrite Hv.
  rewrite (bind_run _ _ _ _ _ _ (executeValidationErrorCallbacks_run _ _)).
  cbn [store_of fst]. repeat step.
  rewrite (update_at_back _ _ _ _ _ _ Hnav Hp Hup). repeat step.
  cbn [log_first store_of events_of result_of fst snd].
  rewrite (obj_set_back _ _ _ _ Hroot), app_nil_r.
  apply run_eq; [now destruct s | reflexivity | reflexivity].
Qed.

Lemma rejected_nested_write_run_witness :
  exec (write (WNested "system" [] (KStr "id") (VStr "seven")))
       Examples.system_written = Examples.system_written.
Proof.
  unfold exec.
  rewrite (rejected_nested_write_run Examples.system_written "system" []
             (KStr "id") (VStr "seven")
             Examples.SYSTEM_STATE_2 Examples.SYSTEM_STATE_2
             (VObj [("id"%string, VStr "seven"); ("name"%string, VStr "test")])
             Examples.system_rule "ValidationError"%string);
    reflexivity.
Defined.

(** ** Writes without a rule *)

(** X9. An assignment [state\[prop\] = value] to a field that has no rule
    in the schema never reaches the rule engine: it prints
    [No schema for prop], leaves the value in the state and throws a
    [TypeError]; the schema, the subscriptions and both ledgers stay as
    they are and no callback is called. *)
Theorem write_without_rule s prop value :
  copyable (state s) = true ->
  match obj_get (schema s) prop with
  | Some (Some _) => False
  | _ => True
  end ->
  write (WTop prop value) s =
  (with_state (obj_set (state s) prop value) s,
   [EvConsoleLog ("No schema for " ++ prop)%string], inl TypeError).
Proof.
  unfold copyable. intros Hc Hs. cbn [write].
  destruct (JSON_copy_state (state s)) as [e|snap] eqn:E; [discriminate|].
  unfold stateRegisterProxySetter, updateUndoHistory, updateRedoHistory, copy_arg.
  repeat step. rewrite E. repeat step.
  unfold validate. repeat step.
  destruct (obj_get (schema s) prop) as [[rule|]|]; [contradiction| |];
    now repeat step.
Qed.

Lemma write_without_rule_witness :
  state (exec (write (WTop "ghost" (VNum 1))) (Joistor None)) =
    [("ghost"%string, VNum 1)] /\
  result_of (write (WTop "ghost" (VNum 1)) (Joistor None)) = inl TypeError.
Proof.
  unfold exec.
  rewrite (write_without_rule (Joistor None) "ghost" (VNum 1) eq_refl I).
  split; reflexivity.
Defined.

(** ** An undo that is refused *)

(** X10. When the snapshot on top of the undo ledger lacks a field of the
    state (a field was registered after the snapshot was taken), [undo()]
    throws the error of [updateUndoRedoState] and writes no field, but the
    history has moved already: the entry is gone from the undo ledger and a
    copy of the current state is on the redo ledger. *)
Theorem refused_undo_consumes_entry s u p snap :
  updateHistory s = true ->
  history_undo s = u ++ [p] ->
  JSON_copy_state (state s) = inr snap ->
  forallb (includes (obj_keys p)) (obj_keys (state s)) = false ->
  undo s =
  (with_redo (push_bounded (historyBuffer (opts s)) (history_redo s) snap)
     (with_undo u s),
   [], inl FieldsNotSame).
Proof.
  intros Huh Hu Hc Hk. unfold undo. step. rewrite Hu, length_app.
  cbn [List.length].
  replace (Nat.eqb (List.length u + 1) 0) with false
    by (symmetry; apply Nat.eqb_neq; lia).
  unfold updateUndoHistory, updateRedoHistory, copy_arg, pop_undo.
  repeat step. rewrite Hc. repeat step.
  rewrite Hu, removelast_last, last_map_app.
  rewrite (bind_silent _ _ _ _ _ (addRedo_run _ _)). store_simpl. rewrite Huh.
  now rewrite updateUndoRedoState_refuses.
Qed.

Lemma refused_undo_consumes_entry_witness :
  result_of (undo MoreExamples.grown_store) = inl FieldsNotSame /\
  state (exec undo MoreExamples.grown_store) = state MoreExamples.grown_store /\
  history_undo (exec undo MoreExamples.grown_store) = [] /\
  history_redo (exec undo MoreExamples.grown_store) =
    [[("a"%string, VNum 5); ("b"%string, VNum 2)]].
Proof.
  unfold exec.
  rewrite (refused_undo_consumes_entry MoreExamples.grown_store []
             [("a"%string, VNum 1)]
             [("a"%string, VNum 5); ("b"%string, VNum 2)]
             eq_refl eq_refl eq_refl eq_refl).
  repeat split.
Defined.

(** ** Unregistering *)

Lemma obj_get_delete_same {A} (o : Obj A) k : obj_get (obj_delete o k) k = None.
Proof.
  induction o as [|[j x] o IH]; cbn; [reflexivity|].
  destruct (String.eqb j k) eqn:E; cbn; [exact IH|]. now rewrite E.
Qed.

Lemma obj_delete_absent {A} (o : Obj A) k :
  obj_get o k = None -> obj_delete o k = o.
Proof.
  induction o as [|[j x] o IH]; cbn; [reflexivity|].
  destruct (String.eqb j k); [discriminate|]. intros H. now rewrite IH.
Qed.

Lemma executeUnregisterCallbacks_run s :
  executeUnregisterCallbacks s =
  (s, map EvUnregister (onUnregisterCallbacks s), inr tt).
Proof.
  unfold executeUnregisterCallbacks. step.
  induction (onUnregisterCallbacks s) as [|cb cbs IH]; cbn [forEach map];
    [reflexivity|].
  step. now rewrite IH.
Qed.

Lemma executeRegisterCallbacks_run s :
  executeRegisterCallbacks s =
  (s, map EvRegister (onRegisterCallbacks s), inr tt).
Proof.
  unfold executeRegisterCallbacks. step.
  induction (onRegisterCallbacks s) as [|cb cbs IH]; cbn [forEach map];
    [reflexivity|].
  step. now rewrite IH.
Qed.

(** X11. [unregister(field)] never throws, whatever the store holds.  The
    field is then neither in the schema nor in the state, every other field
    keeps its rule and its value, the [onUnregister] callbacks are called
    in the order they were added, and the ledgers are not touched: the
    snapshots taken before keep the field.  Unregistering a field that is
    not registered changes nothing. *)
Theorem unregister_removes_field s field :
  result_of (unregister field s) = inr tt /\
  events_of (unregister field s) = map EvUnregister (onUnregisterCallbacks s) /\
  obj_get (schema (exec (unregister field) s)) field = None /\
  obj_get (state (exec (unregister field) s)) field = None /\
  (forall g, g <> field ->
     obj_get (schema (exec (unregister field) s)) g = obj_get (schema s) g /\
     obj_get (state (exec (unregister field) s)) g = obj_get (state s) g) /\
  history_undo (exec (unregister field) s) = history_undo s /\
  history_redo (exec (unregister field) s) = history_redo s /\
  updateHistory (exec (unregister field) s) = updateHistory s /\
  (obj_get (schema s) field = None -> obj_get (state s) field = None ->
   exec (unregister field) s = s).
Proof.
  unfold exec, unregister. repeat step.
  rewrite executeUnregisterCallbacks_run.
  cbn [store_of events_of result_of fst snd]. store_simpl.
  repeat split; auto using obj_get_delete_same.
  - apply obj_get_delete_other. congruence.
  - apply obj_get_delete_other. congruence.
  - intros Hs Hst. rewrite (obj_delete_absent _ _ Hs), (obj_delete_absent _ _ Hst).
    now destruct s.
Qed.

Lemma unregister_removes_field_witness :
  exec (unregister "ghost") Examples.system_store = Examples.system_store.
Proof.
  destruct (unregister_removes_field Examples.system_store "ghost")
    as (_ & _ & _ & _ & _ & _ & _ & _ & H).
  exact (H eq_refl eq_refl).
Defined.

(** ** Registering *)

(** The store [register] leaves behind when its first key is [field]. *)
Lemma register_store s field rule rest stateObj :
  exec (register ((field, rule) :: rest) stateObj) s =
    top_write_store
      (with_schema (obj_set (schema s) field (Some rule))
         (with_updateHistory false s))
      field (or_undefined (obj_get stateObj field)) \/
  exec (register ((field, rule) :: rest) stateObj) s =
    with_updateHistory true
      (top_write_store
         (with_schema (obj_set (schema s) field (Some rule))
            (with_updateHistory false s))
         field (or_undefined (obj_get stateObj field))).
Proof.
  unfold exec, register. cbn [obj_keys map fst obj_get].
  rewrite String.eqb_refl. repeat step.
  rewrite store_of_bind, stateRegisterProxySetter_store.
  destruct (result_of _); [now left|]. right. repeat step.
  now rewrite (preserves_callbacks_register (fun x => x = _) _ eq_refl).
Qed.

(** X12. Registering a field that the store does not have and
    unregistering it again gives back the schema and the state as they
    were, whether the default value was accepted or not, and leaves both
    ledgers alone. *)
Theorem register_unregister_round_trip s field rule rest stateObj :
  obj_get (schema s) field = None ->
  obj_get (state s) field = None ->
  schema (exec (unregister field)
            (exec (register ((field, rule) :: rest) stateObj) s)) = schema s /\
  state (exec (unregister field)
           (exec (register ((field, rule) :: rest) stateObj) s)) = state s /\
  history_undo (exec (unregister field)
                  (exec (register ((field, rule) :: rest) stateObj) s))
    = history_undo s /\
  history_redo (exec (unregister field)
                  (exec (register ((field, rule) :: rest) stateObj) s))
    = history_redo s.
Proof.
  intros Hs Hst.
  set (v := or_undefined (obj_get stateObj field)).
  set (s0 := with_schema (obj_set (schema s) field (Some rule))
               (with_updateHistory false s)).
  assert (H1 : schema (top_write_store s0 field v)
                 = obj_set (schema s) field (Some rule) /\
               obj_delete (state (top_write_store s0 field v)) field = state s /\
               history_undo (top_write_store s0 field v) = history_undo s /\
               history_redo (top_write_store s0 field v) = history_redo s).
  { destruct (top_write_store_frame s0 field v) as (_ & Hsch & _ & _ & _ & Hl).
    destruct (Hl eq_refl) as [Hu Hr]. repeat split; auto.
    unfold top_write_store, committed, s0. store_simpl.
    destruct (JSON_copy_state (state s)); [now apply obj_delete_absent|].
    rewrite obj_get_set_same, Hst. cbn [or_undefined truthy].
    destruct (rule_validate rule (strict (opts s)) v); store_simpl.
    - rewrite (obj_delete_new _ _ _ Hst). now apply obj_delete_absent.
    - now apply obj_delete_new. }
  destruct H1 as (Hsch & Hstate & Hu & Hr).
  unfold exec at 1 3 5 7. unfold unregister. repeat step.
  rewrite executeUnregisterCallbacks_run.
  cbn [store_of fst]. store_simpl.
  destruct (register_store s field rule rest stateObj) as [-> | ->];
    fold v s0; store_simpl; rewrite Hsch, Hstate, Hu, Hr;
    now rewrite (obj_delete_new _ _ _ Hs).
Qed.

Lemma register_unregister_round_trip_witness :
  state (exec (unregister "system")
           (exec (register [("system"%string, Examples.system_rule)]
                    [("system"%string, Examples.SYSTEM_STATE_1)])
                 (Joistor None))) = [] /\
  schema (exec (unregister "system")
            (exec (register [("system"%string, Examples.system_rule)]
                     [("system"%string, Examples.SYSTEM_STATE_1)])
                  (Joistor None))) = [].
Proof.
  destruct (register_unregister_round_trip (Joistor None) "system"
              Examples.system_rule [] [("system"%string, Examples.SYSTEM_STATE_1)]
              eq_refl eq_refl) as (Hs & Hst & _).
  split; [exact Hst | exact Hs].
Defined.

(** A registration whose default value is accepted, from the first
    statement to the last callback. *)
Lemma register_accept s field rule rest stateObj v :
  copyable (state s) = true ->
  v = or_undefined (obj_get stateObj field) ->
  rule_validate rule (strict (opts s)) v = None ->
  v <> VNull ->
  register ((field, rule) :: rest) stateObj s =
  (registered s field rule v true,
   EvValidate field (strict (opts s)) v
     :: map (fun cb => EvChange cb field v None None) (subscribers s field)
     ++ map EvRegister (onRegisterCallbacks s),
   inr tt).
Proof.
  unfold copyable. intros Hc -> Hr Hn.
  destruct (JSON_copy_state (state s)) as [e|snap] eqn:Ec; [discriminate|].
  unfold register. cbn [obj_keys map fst obj_get].
  rewrite String.eqb_refl. repeat step.
  erewrite bind_run.
  2:{ apply (stateRegisterProxySetter_accept _ field _ snap rule).
      - exact Ec.
      - store_simpl. apply obj_get_set_same.
      - exact Hr.
      - destruct (or_undefined (obj_get stateObj field)); try reflexivity.
        congruence. }
  unfold committed. store_simpl. repeat step.
  rewrite executeRegisterCallbacks_run.
  cbn [store_of events_of result_of fst snd]. store_simpl.
  apply run_eq; reflexivity.
Qed.

(** X15. A registration whose default value the rule accepts returns
    normally with the rule in the schema and the value in the state.  It
    consults the rule engine, calls the [onChange] subscribers the field
    already has, then the [onRegister] callbacks; it pushes nothing on the
    undo ledger, keeps the redo ledger and ends with history recording
    on. *)
Theorem register_accepted_run s field rule rest stateObj v :
  copyable (state s) = true ->
  v = or_undefined (obj_get stateObj field) ->
  rule_validate rule (strict (opts s)) v = None ->
  v <> VNull ->
  register ((field, rule) :: rest) stateObj s =
  (registered s field rule v true,
   EvValidate field (strict (opts s)) v
     :: map (fun cb => EvChange cb field v None None) (subscribers s field)
     ++ map EvRegister (onRegisterCallbacks s),
   inr tt) /\
  obj_get (schema (registered s field rule v true)) field = Some (Some rule) /\
  obj_get (state (registered s field rule v true)) field = Some v /\
  history_undo (registered s field rule v true) = history_undo s /\
  history_redo (registered s field rule v true) = history_redo s /\
  updateHistory (registered s field rule v true) = true.
Proof.
  intros Hc Hv Hr Hn. split; [now apply register_accept|].
  unfold registered. store_simpl.
  repeat split; apply obj_get_set_same.
Qed.

Lemma register_accepted_run_witness :
  events_of (register [("system"%string, Examples.system_rule)]
               [("system"%string, Examples.SYSTEM_STATE_2)]
               Examples.system_store) =
    [EvValidate "system" false Examples.SYSTEM_STATE_2;
     EvChange 7 "system" Examples.SYSTEM_STATE_2 None None] /\
  history_undo (exec (register [("system"%string, Examples.system_rule)]
                        [("system"%string, Examples.SYSTEM_STATE_2)])
                     Examples.system_store) = [].
Proof.
  unfold exec.
  destruct (register_accepted_run Examples.system_store "system"
              Examples.system_rule [] [("system"%string, Examples.SYSTEM_STATE_2)]
              Examples.SYSTEM_STATE_2 eq_refl eq_refl eq_refl) as (-> & _);
    [discriminate | split; reflexivity].
Defined.

(** X16. A registration whose default value the rule rejects still
    returns normally and still calls the [onRegister] callbacks, after the
    error callbacks: the rule is in the schema, the assignment of the
    default value is rolled back, so a field that was not in the state is
    registered without a value.  The ledgers are not touched. *)
Theorem register_rejected_default s field rule rest stateObj v error :
  copyable (state s) = true ->
  v = or_undefined (obj_get stateObj field) ->
  rule_validate rule (strict (opts s)) v = Some error ->
  register ((field, rule) :: rest) stateObj s =
  (registered s field rule v false,
   EvValidate field (strict (opts s)) v :: error_events s error
     ++ map EvRegister (onRegisterCallbacks s),
   inr tt) /\
  obj_get (schema (registered s field rule v false)) field = Some (Some rule) /\
  (obj_get (state s) field = None ->
   state (registered s field rule v false) = state s) /\
  history_undo (registered s field rule v false) = history_undo s /\
  history_redo (registered s field rule v false) = history_redo s.
Proof.
  unfold copyable. intros Hc -> Hr.
  destruct (JSON_copy_state (state s)) as [e|snap] eqn:Ec; [discriminate|].
  split; [|split; [|split; [|split]]].
  - unfold register. cbn [obj_keys map fst obj_get].
    rewrite String.eqb_refl. repeat step.
    erewrite bind_run.
    2:{ apply (stateRegisterProxySetter_reject _ field _ snap rule error).
        - exact Ec.
        - store_simpl. apply obj_get_set_same.
        - exact Hr. }
    repeat step. rewrite executeRegisterCallbacks_run.
    cbn [store_of events_of result_of fst snd].
    apply run_eq; [| |reflexivity].
    + unfold registered, rolled_back. store_simpl.
      now destruct (truthy _).
    + unfold rejected_events, error_events. store_simpl.
      cbn [app]. f_equal.
      unfold rolled_back. store_simpl. now destruct (truthy _).
  - unfold registered, rolled_back. store_simpl.
    destruct (truthy _); store_simpl; apply obj_get_set_same.
  - intros Hst. unfold registered, rolled_back. store_simpl.
    rewrite Hst. cbn [or_undefined truthy]. store_simpl.
    now apply obj_delete_new.
  - unfold registered, rolled_back. store_simpl. now destruct (truthy _).
  - unfold registered, rolled_back. store_simpl. now destruct (truthy _).
Qed.

Lemma register_rejected_default_witness :
  obj_keys (schema (exec (register [("count"%string, Examples.number_rule)]
                            [("count"%string, VStr "none")]) (Joistor None)))
    = ["count"%string] /\
  state (exec (register [("count"%string, Examples.number_rule)]
                 [("count"%string, VStr "none")]) (Joistor None)) = [] /\
  result_of (register [("count"%string, Examples.number_rule)]
               [("count"%string, VStr "none")] (Joistor None)) = inr tt.
Proof.
  destruct (register_rejected_default (Joistor None) "count"
              Examples.number_rule [] [("count"%string, VStr "none")]
              (VStr "none") "ValidationError"%string eq_refl eq_refl eq_refl)
    as (Hrun & _ & Hst & _).
  unfold exec. rewrite Hrun. cbn [store_of result_of fst snd].
  split; [reflexivity|]. split; [exact (Hst eq_refl) | reflexivity].
Defined.

(** ** Accepted writes and subscriptions *)

Lemma wrap_not_null v : v <> VNull -> wrap v = inr v.
Proof. destruct v; try reflexivity. congruence. Qed.

(** An accepted write, from the assignment to the last subscriber. *)
Lemma write_accepted_run s w v snap :
  accepted s w = true ->
  JSON_copy_state (state s) = inr snap ->
  field_after (state s) w = Some v ->
  v <> VNull ->
  write w s =
  (committed s (written_field w) v snap, accepted_events s w v, inr tt).
Proof.
  intros Hacc Hc Hf Hv.
  destruct (accepted_inv _ _ Hacc) as (snap' & v' & rule & Hc' & Hf' & Hs & Hr & Hn).
  rewrite Hf in Hf'. injection Hf' as <-.
  destruct w as [prop value | baseProp path prop value];
    cbn [written_field field_after write] in *.
  - injection Hf as <-.
    apply (stateRegisterProxySetter_accept _ _ _ _ rule); auto.
    now apply wrap_not_null.
  - destruct (navigate (or_undefined (obj_get (state s) baseProp)) path)
      as [e|obj] eqn:Hnav; [discriminate|].
    destruct (navigate_container _ _ _ Hnav) as [Hw Hu].
    destruct (obj_get (state s) baseProp) as [root|] eqn:Hroot;
      [|now elim Hu].
    cbn [or_undefined] in *.
    repeat step. rewrite (stateRegisterProxyGetter_own _ _ _ Hroot), Hw.
    repeat step. rewrite Hnav. repeat step.
    apply (stateFieldProxySetter_accept _ _ _ _ _ _ root obj v rule); auto.
Qed.

(** X17. An accepted write runs the same way at every depth: an
    assignment to a whole field, to a property of the field or to a
    property any number of levels down returns normally, consults the rule
    of the owning field once on the whole value the field then has, and
    calls each subscriber of the field once, in the order of subscription,
    with that whole value. *)
Theorem accepted_write_run s w v :
  accepted s w = true ->
  field_after (state s) w = Some v ->
  v <> VNull ->
  exists snap,
    JSON_copy_state (state s) = inr snap /\
    write w s =
    (committed s (written_field w) v snap,
     EvValidate (written_field w) (strict (opts s)) v
       :: map (fun cb => EvChange cb (written_field w) v
                           (written_prop w) (written_value w))
              (subscribers s (written_field w)),
     inr tt).
Proof.
  intros Hacc Hf Hv.
  destruct (accepted_inv _ _ Hacc) as (snap & _ & _ & Hc & _).
  exists snap. split; [exact Hc|].
  now apply write_accepted_run.
Qed.

Lemma accepted_write_run_witness :
  events_of (write (WNested "system" [] (KStr "id") (VNum 4))
               Examples.system_store) =
  [EvValidate "system" false
     (VObj [("id"%string, VNum 4); ("name"%string, VStr "")]);
   EvChange 7 "system"
     (VObj [("id"%string, VNum 4); ("name"%string, VStr "")])
     (Some (KStr "id")) (Some (VNum 4))].
Proof.
  destruct (accepted_write_run Examples.system_store
              (WNested "system" [] (KStr "id") (VNum 4))
              (VObj [("id"%string, VNum 4); ("name"%string, VStr "")])
              eq_refl eq_refl) as (snap & _ & ->); [discriminate|].
  reflexivity.
Defined.

Lemma subscribers_onChange s path cb field :
  subscribers (exec (onChange path cb) s) field =
  if String.eqb path field then subscribers s field ++ [cb]
  else subscribers s field.
Proof.
  unfold exec, onChange, subscribers. cbn [modify store_of fst]. store_simpl.
  destruct (String.eqb path field) eqn:E.
  - apply String.eqb_eq in E as ->. now rewrite obj_get_set_same.
  - apply String.eqb_neq in E. rewrite obj_get_set_other by congruence.
    reflexivity.
Qed.

(** X13. [onChange(path, cb)] adds [cb] behind the subscribers the field
    already has and does nothing else: an accepted write to the field then
    runs as before and calls [cb] last; a write to any other field runs as
    before; the state the write leaves is the same. *)
Theorem onChange_adds_last_subscriber s path cb w v :
  accepted s w = true ->
  field_after (state s) w = Some v ->
  v <> VNull ->
  onChange path cb s = (exec (onChange path cb) s, [], inr tt) /\
  result_of (write w (exec (onChange path cb) s)) = inr tt /\
  events_of (write w (exec (onChange path cb) s)) =
    events_of (write w s) ++
    (if String.eqb path (written_field w)
     then [EvChange cb (written_field w) v (written_prop w) (written_value w)]
     else []) /\
  state (exec (write w) (exec (onChange path cb) s)) = state (exec (write w) s).
Proof.
  intros Hacc Hf Hv.
  destruct (accepted_inv _ _ Hacc) as (snap & _ & _ & Hc & _).
  split; [reflexivity|].
  assert (Hacc' : accepted (exec (onChange path cb) s) w = true) by exact Hacc.
  assert (Hc' : JSON_copy_state (state (exec (onChange path cb) s)) = inr snap)
    by exact Hc.
  assert (Hf' : field_after (state (exec (onChange path cb) s)) w = Some v)
    by exact Hf.
  pose proof (subscribers_onChange s path cb (written_field w)) as Hsub.
  assert (Ho : opts (exec (onChange path cb) s) = opts s) by reflexivity.
  assert (Hst : state (exec (onChange path cb) s) = state s) by reflexivity.
  revert Hacc' Hc' Hf' Hsub Ho Hst.
  generalize (exec (onChange path cb) s). intros s1 Hacc' Hc' Hf' Hsub Ho Hst.
  unfold exec.
  rewrite (write_accepted_run _ _ _ _ Hacc' Hc' Hf' Hv).
  rewrite (write_accepted_run _ _ _ _ Hacc Hc Hf Hv).
  cbn [store_of events_of result_of fst snd].
  split; [reflexivity|]. split.
  - unfold accepted_events. rewrite Hsub, Ho.
    destruct (String.eqb path (written_field w)).
    + now rewrite map_app.
    + now rewrite app_nil_r.
  - now rewrite !state_committed, Hst.
Qed.

Lemma onChange_adds_last_subscriber_witness :
  events_of (write (WTop "system" Examples.SYSTEM_STATE_2)
               (exec (onChange "system" 9) Examples.system_store)) =
  [EvValidate "system" false Examples.SYSTEM_STATE_2;
   EvChange 7 "system" Examples.SYSTEM_STATE_2 None None;
   EvChange 9 "system" Examples.SYSTEM_STATE_2 None None].
Proof.
  destruct (onChange_adds_last_subscriber Examples.system_store "system" 9
              (WTop "system" Examples.SYSTEM_STATE_2) Examples.SYSTEM_STATE_2
              eq_refl eq_refl) as (_ & _ & H & _); [discriminate|].
  rewrite H. reflexivity.
Defined.

(** X14. [onError(cb)] adds [cb] behind the error callbacks the store
    already has: a rejected assignment then runs as before and calls [cb]
    last with the error of the rule engine, and leaves the same state. *)
Theorem onError_adds_last_callback s cb prop value rule error :
  copyable (state s) = true ->
  obj_get (schema s) prop = Some (Some rule) ->
  rule_validate rule (strict (opts s)) value = Some error ->
  onError cb s = (exec (onError cb) s, [], inr tt) /\
  result_of (write (WTop prop value) (exec (onError cb) s)) = inr tt /\
  events_of (write (WTop prop value) (exec (onError cb) s)) =
    events_of (write (WTop prop value) s) ++ [EvError cb error] /\
  state (exec (write (WTop prop value)) (exec (onError cb) s)) =
    state (exec (write (WTop prop value)) s).
Proof.
  unfold copyable. intros Hc Hs Hr.
  destruct (JSON_copy_state (state s)) as [e|snap] eqn:Ec; [discriminate|].
  split; [reflexivity|].
  assert (Ec' : JSON_copy_state (state (exec (onError cb) s)) = inr snap)
    by exact Ec.
  assert (Hs' : obj_get (schema (exec (onError cb) s)) prop = Some (Some rule))
    by exact Hs.
  assert (Hr' : rule_validate rule (strict (opts (exec (onError cb) s))) value
                = Some error) by exact Hr.
  assert (Ho : opts (exec (onError cb) s) = opts s) by reflexivity.
  assert (Hst : state (exec (onError cb) s) = state s) by reflexivity.
  assert (He : onErrorCallbacks (exec (onError cb) s)
               = onErrorCallbacks s ++ [UserError cb]) by reflexivity.
  revert Ec' Hs' Hr' Ho Hst He.
  generalize (exec (onError cb) s). intros s1 Ec' Hs' Hr' Ho Hst He.
  unfold exec. cbn [write].
  rewrite (stateRegisterProxySetter_reject _ _ _ _ _ _ Ec' Hs' Hr').
  rewrite (stateRegisterProxySetter_reject _ _ _ _ _ _ Ec Hs Hr).
  cbn [store_of events_of result_of fst snd].
  split; [reflexivity|]. split.
  - unfold rejected_events, error_events. rewrite He, Ho.
    rewrite flat_map_app. cbn [flat_map app]. reflexivity.
  - unfold rolled_back. rewrite Hst.
    now destruct (truthy _).
Qed.

Lemma onError_adds_last_callback_witness :
  events_of (write (WTop "system" Examples.INVALID_SYSTEM_STATE_1)
               (exec (onError 3) Examples.system_store)) =
  [EvValidate "system" false Examples.INVALID_SYSTEM_STATE_1;
   EvConsoleLog "ValidationError"%string; EvError 3 "ValidationError"%string].
Proof.
  destruct (onError_adds_last_callback Examples.system_store 3 "system"
              Examples.INVALID_SYSTEM_STATE_1 Examples.system_rule
              "ValidationError"%string eq_refl eq_refl eq_refl)
    as (_ & _ & H & _).
  rewrite H. reflexivity.
Defined.

(** ** What writes, [undo] and [redo] leave alone *)

Ltac keeps_configuration :=
  unfold updateUndoHistory, updateRedoHistory, addUndo, addRedo, clearRedo,
    pop_undo, removeRedo;
  keeps;
  try apply preserves_copy_arg; try apply preserves_validate;
  try apply preserves_callbacks_change;
  try (apply preserves_modify; let H := fresh in intros ? H; exact H).

Lemma configuration_top_setter s0 prop value :
  preserves (same_configuration s0) (stateRegisterProxySetter prop value).
Proof. unfold stateRegisterProxySetter. keeps_configuration. Qed.

Lemma configuration_field_setter s0 baseProp path prop value :
  preserves (same_configuration s0)
    (stateFieldProxySetter baseProp path prop value).
Proof. unfold stateFieldProxySetter. keeps_configuration. Qed.

Lemma configuration_write s0 w : preserves (same_configuration s0) (write w).
Proof.
  destruct w; cbn [write].
  - apply configuration_top_setter.
  - keeps. apply configuration_field_setter.
Qed.

Lemma configuration_replay s0 newState :
  preserves (same_configuration s0) (updateUndoRedoState newState).
Proof.
  unfold updateUndoRedoState. keeps_configuration.
  apply configuration_top_setter.
Qed.

Lemma configuration_undo s0 : preserves (same_configuration s0) undo.
Proof. unfold undo. keeps_configuration. apply configuration_replay. Qed.

Lemma configuration_redo s0 : preserves (same_configuration s0) redo.
Proof. unfold redo. keeps_configuration. apply configuration_replay. Qed.

Lemma same_configuration_refl s : same_configuration s s.
Proof. unfold same_configuration. repeat split. Qed.

Lemma configuration_run_ops s0 ops : forall s,
  same_configuration s0 s ->
  forallb data_op ops = true ->
  same_configuration s0 (run_ops ops s).
Proof.
  induction ops as [|o ops IH]; intros s H Hops; [exact H|].
  cbn [forallb] in Hops. apply andb_true_iff in Hops as [Ho Hops].
  unfold run_ops. cbn [fold_left]. apply IH; [|exact Hops].
  destruct o; try discriminate; cbn [run_op].
  - now apply configuration_write.
  - now apply configuration_undo.
  - now apply configuration_redo.
Qed.

(** X18. Assignments, [undo] and [redo] never change the schema, the
    options or any callback table, whether they return or throw and in
    whatever state the store is: after any sequence of them the store has
    the rules, the options and the subscribers it started with. *)
Theorem data_operations_keep_configuration ops s :
  forallb data_op ops = true ->
  same_configuration s (run_ops ops s).
Proof. apply configuration_run_ops, same_configuration_refl. Qed.

Lemma data_operations_keep_configuration_witness :
  schema (run_ops [OpWrite (WTop "ghost" (VNum 1)); OpUndo; OpRedo;
                   OpWrite (WTop "system" Examples.INVALID_SYSTEM_STATE_1)]
            Examples.system_store) = schema Examples.system_store.
Proof.
  destruct (data_operations_keep_configuration
              [OpWrite (WTop "ghost" (VNum 1)); OpUndo; OpRedo;
               OpWrite (WTop "system" Examples.INVALID_SYSTEM_STATE_1)]
              Examples.system_store eq_refl) as (_ & H & _).
  exact H.
Defined.

(** ** A [null] in the state *)

Lemma wrap_error v e : wrap v = inl e -> e = TypeError.
Proof. destruct v; cbn; congruence. Qed.

Lemma stateRegisterProxyGetter_error obj prop e :
  stateRegisterProxyGetter obj prop = inl e -> e = TypeError.
Proof.
  unfold stateRegisterProxyGetter. destruct (negb _); [discriminate|].
  apply wrap_error.
Qed.

Lemma navigate_error path : forall v e, navigate v path = inl e -> e = TypeError.
Proof.
  induction path as [|k rest IH]; intros v e; destruct v; cbn [navigate];
    try congruence;
    unfold stateFieldProxyGetter;
    destruct (wrap _) as [e'|child] eqn:Ew; try (apply IH);
    intros H; injection H as <-; eapply wrap_error; eauto.
Qed.

Lemma frozen_top_write s prop value :
  copyable (state s) = false ->
  stateRegisterProxySetter prop value s = (s, [], inl TypeError).
Proof.
  intros Hc. unfold stateRegisterProxySetter, updateUndoHistory, copy_arg.
  repeat step. rewrite (not_copyable_TypeError _ Hc). now repeat step.
Qed.

Lemma frozen_write s w :
  copyable (state s) = false -> write w s = (s, [], inl TypeError).
Proof.
  intros Hc. destruct w as [prop value | baseProp path prop value]; cbn [write].
  - now apply frozen_top_write.
  - step.
    destruct (stateRegisterProxyGetter (state s) baseProp) as [e|root] eqn:Hg.
    { step. now rewrite (stateRegisterProxyGetter_error _ _ _ Hg). }
    step. destruct (navigate root path) as [e|obj] eqn:Hnav.
    { step. now rewrite (navigate_error _ _ _ Hnav). }
    step. unfold stateFieldProxySetter, updateUndoHistory, copy_arg.
    repeat step. rewrite (not_copyable_TypeError _ Hc). now repeat step.
Qed.

Lemma frozen_undo s :
  copyable (state s) = false -> history_undo s <> [] ->
  undo s = (s, [], inl TypeError).
Proof.
  intros Hc Hu. unfold undo. step.
  destruct (history_undo s) as [|p u]; [congruence|]. cbn [List.length Nat.eqb].
  unfold updateUndoHistory, updateRedoHistory, copy_arg. repeat step.
  rewrite (not_copyable_TypeError _ Hc). now repeat step.
Qed.

Lemma frozen_redo s :
  copyable (state s) = false -> history_redo s <> [] ->
  redo s = (s, [], inl TypeError).
Proof.
  intros Hc Hu. unfold redo. step.
  destruct (history_redo s) as [|p u]; [congruence|]. cbn [List.length Nat.eqb].
  unfold updateUndoHistory, updateRedoHistory, copy_arg. repeat step.
  rewrite (not_copyable_TypeError _ Hc). now repeat step.
Qed.

(** X19. Once the state holds a [null] somewhere, the store is stuck:
    every assignment, to any field and at any depth, throws a [TypeError]
    before anything is changed or any callback is called, and so do [undo]
    and [redo] when their ledger is not empty. *)
Theorem null_in_state_blocks_store s :
  copyable (state s) = false ->
  (forall w, write w s = (s, [], inl TypeError)) /\
  (history_undo s <> [] -> undo s = (s, [], inl TypeError)) /\
  (history_redo s <> [] -> redo s = (s, [], inl TypeError)).
Proof.
  intros Hc. split; [intros w; now apply frozen_write|].
  split; [now apply frozen_undo | now apply frozen_redo].
Qed.

Lemma null_in_state_blocks_store_witness :
  write (WTop "a" (VNum 1))
    (with_state [("a"%string, VNull)] Examples.counter_store) =
  (with_state [("a"%string, VNull)] Examples.counter_store, [], inl TypeError).
Proof.
  destruct (null_in_state_blocks_store
              (with_state [("a"%string, VNull)] Examples.counter_store) eq_refl)
    as (H & _).
  apply H.
Defined.

(** X20. The rules can let a [null] in.  An accepted assignment
    [state\[prop\] = value] whose value holds a [null] is committed like
    any other, and from then on every assignment throws a [TypeError] and
    changes nothing.  When the value is [null] itself and the field has a
    subscriber, the assignment itself throws after it is committed and
    recorded in the history, and no subscriber is called. *)
Theorem accepted_null_blocks_store s prop value snap rule :
  JSON_copy_state (state s) = inr snap ->
  obj_get (schema s) prop = Some (Some rule) ->
  rule_validate rule (strict (opts s)) value = None ->
  has_null value = true ->
  exec (write (WTop prop value)) s = committed s prop value snap /\
  (forall w, write w (committed s prop value snap)
             = (committed s prop value snap, [], inl TypeError)) /\
  (value = VNull -> subscribers s prop <> [] ->
   write (WTop prop value) s =
   (committed s prop value snap,
    [EvValidate prop (strict (opts s)) value], inl TypeError)).
Proof.
  intros Hc Hs Hr Hn.
  pose proof (stateRegisterProxySetter_commit _ _ _ _ _ Hc Hs Hr) as Hrun.
  split; [|split].
  - unfold exec. cbn [write]. rewrite Hrun, store_of_log_first.
    now apply (preserves_callbacks_change (fun x => x = committed s prop value snap)).
  - intros w. apply frozen_write.
    destruct (copyable _) eqn:Hcp; [|reflexivity].
    pose proof (copyable_no_null _ prop value Hcp) as H.
    rewrite state_committed in H.
    rewrite H in Hn; [discriminate|].
    apply (obj_get_In _ _ _ (obj_get_set_same _ _ _)).
  - intros -> Hsub. cbn [write]. rewrite Hrun.
    unfold executeChangeCallbacks. step.
    rewrite <- (subscribers_committed s prop VNull snap) in Hsub.
    unfold subscribers in Hsub.
    destruct (obj_get (onChangeCallbacks (committed s prop VNull snap)) prop)
      as [[|cb cbs]|]; try congruence.
    cbn [forEach]. repeat step.
    rewrite state_committed.
    rewrite (stateRegisterProxyGetter_own _ _ _ (obj_get_set_same _ _ _)).
    cbn [wrap typeof_object new_Proxy]. repeat step. reflexivity.
Qed.

Lemma accepted_null_blocks_store_witness :
  write (WTop "a" VNull) MoreExamples.nullable_store =
  (committed MoreExamples.nullable_store "a" VNull [("a"%string, VNum 1)],
   [EvValidate "a" false VNull], inl TypeError).
Proof.
  destruct (accepted_null_blocks_store MoreExamples.nullable_store "a" VNull
              [("a"%string, VNum 1)] MoreExamples.any_rule
              eq_refl eq_refl eq_refl eq_refl) as (_ & _ & H).
  apply H; [reflexivity | discriminate].
Defined.

(** ** Well-formed stores *)

Lemma json_clean_data v : json_clean v = true -> json_data v = true.
Proof.
  induction v as [| |b|n|s|items IH|props IH] using Value_induction;
    cbn [json_clean json_data]; try discriminate; try reflexivity;
    intros Hc.
  - induction IH as [|x items Hx _ IHl]; cbn in *; [reflexivity|].
    apply andb_true_iff in Hc as [Hc1 Hc2].
    now rewrite (Hx Hc1), (IHl Hc2).
  - induction IH as [|[k x] props Hx _ IHl]; cbn in *; [reflexivity|].
    apply andb_true_iff in Hc as [Hc1 Hc2].
    now rewrite (Hx Hc1), (IHl Hc2).
Qed.

Lemma clean_write_well_formed s w v :
  well_formed s = true ->
  accepted s w = true ->
  field_after (state s) w = Some v ->
  json_clean v = true ->
  well_formed (exec (write w) s) = true.
Proof.
  intros Hwf Hacc Hf Hcv.
  assert (Hg : good_write s w = true).
  { unfold good_write. rewrite Hacc, Hf. now apply json_clean_data. }
  destruct (good_write_step s w Hwf Hg) as [_ [H|H]]; [exact H|].
  exfalso.
  destruct (write_accepted_store _ _ Hacc) as (snap & v' & _ & Hf' & Hex).
  rewrite Hf in Hf'. injection Hf' as <-.
  rewrite Hex, state_committed in H.
  pose proof (well_formed_clean _ Hwf) as Hclean.
  apply well_formed_inv in Hwf as (_ & Hnd & _).
  unfold copyable in H. rewrite JSON_copy_state_clean in H; [discriminate|].
  unfold clean_obj in *. apply forallb_obj_set; auto.
  intros g x Hin _. rewrite forallb_forall in Hclean. apply (Hclean _ Hin).
Qed.

(** X21. Well-formedness is an invariant of the history: on a well-formed
    store [undo] and [redo] leave a well-formed store, whatever the
    ledgers hold, and so does every accepted write after which the field
    holds JSON data without [null]. *)
Theorem well_formed_is_kept s :
  well_formed s = true ->
  well_formed (exec undo s) = true /\
  well_formed (exec redo s) = true /\
  (forall w v,
     accepted s w = true ->
     field_after (state s) w = Some v ->
     json_clean v = true ->
     well_formed (exec (write w) s) = true).
Proof.
  intros Hwf. split; [|split].
  - destruct (history_undo s) as [|p u] eqn:Hu.
    + unfold exec. now rewrite (undo_empty _ Hu).
    + destruct (exists_last (l := p :: u)) as (u' & p' & E); [discriminate|].
      rewrite E in Hu. now apply (undo_well_formed s u' p').
  - destruct (history_redo s) as [|p r] eqn:Hr.
    + unfold exec. now rewrite (redo_empty _ Hr).
    + destruct (exists_last (l := p :: r)) as (r' & p' & E); [discriminate|].
      rewrite E in Hr. now apply (redo_well_formed s r' p').
  - intros w v. now apply clean_write_well_formed.
Qed.

Lemma well_formed_is_kept_witness :
  well_formed (exec undo Examples.system_written) = true /\
  well_formed (exec (write (WNested "system" [] (KStr "id") (VNum 4)))
                 Examples.system_written) = true.
Proof.
  destruct (well_formed_is_kept Examples.system_written eq_refl)
    as (Hu & _ & Hw).
  split; [exact Hu|].
  apply (Hw _ (VObj [("id"%string, VNum 4); ("name"%string, VStr "test")]));
    reflexivity.
Defined.

(** ** The previous version of the store *)

Lemma legacy_executeCallbacks_run s prop fv :
  stateRegisterProxyGetter (state s) prop = inr fv ->
  Legacy.executeCallbacks prop s =
  (s, map (fun cb => EvChange cb prop fv None None) (subscribers s prop), inr tt).
Proof.
  intros Hg.
  change (Legacy.executeCallbacks prop) with (executeChangeCallbacks prop None None).
  now apply executeChangeCallbacks_run.
Qed.

Lemma legacy_top_setter_rolled_back rule_value s prop value snap :
  JSON_copy_state (state s) = inr snap ->
  legacy_unaccepted rule_value s prop value = true ->
  exists evs,
    Legacy.stateRegisterProxySetter rule_value prop value s =
      (rolled_back s prop value, evs, inr tt) /\
    existsb is_change evs = false /\
    (obj_get (schema s) prop = None ->
     evs = [EvConsoleLog ("No schema for " ++ prop)%string]) /\
    (forall rule,
       obj_get (schema s) prop = Some (Some rule) ->
       rule_validate rule (strict (opts s)) value = None ->
       evs = [EvValidate prop (strict (opts s)) value]).
Proof.
  intros Hc Hun. unfold legacy_unaccepted in Hun.
  unfold Legacy.stateRegisterProxySetter, updateUndoHistory, updateRedoHistory,
    copy_arg.
  repeat step. rewrite Hc. repeat step.
  unfold Legacy.validate. repeat step.
  destruct (obj_get (schema s) prop) as [[rule|]|] eqn:Hs.
  - unfold validate_argument. repeat step.
    rewrite obj_get_set_same. cbn [or_undefined].
    destruct (rule_validate rule (strict (opts s)) value) as [error|] eqn:Hr.
    + repeat step. cbn [truthy negb]. repeat step.
      eexists. split; [|split; [|split]].
      * unfold rolled_back.
        destruct (truthy (or_undefined (obj_get (state s) prop)));
          cbn [log_first modify]; reflexivity.
      * reflexivity.
      * discriminate.
      * intros rule' H. injection H as <-. congruence.
    + repeat step. apply negb_true_iff in Hun. rewrite Hun.
      cbn [negb]. repeat step.
      eexists. split; [|split; [|split]].
      * unfold rolled_back.
        destruct (truthy (or_undefined (obj_get (state s) prop)));
          cbn [log_first modify]; reflexivity.
      * reflexivity.
      * discriminate.
      * reflexivity.
  - repeat step. cbn [truthy negb]. repeat step.
    eexists. split; [|split; [|split]].
    + unfold rolled_back.
      destruct (truthy (or_undefined (obj_get (state s) prop)));
        cbn [log_first modify]; reflexivity.
    + reflexivity.
    + discriminate.
    + discriminate.
  - repeat step. cbn [truthy negb]. repeat step.
    eexists. split; [|split; [|split]].
    + unfold rolled_back.
      destruct (truthy (or_undefined (obj_get (state s) prop)));
        cbn [log_first modify]; reflexivity.
    + reflexivity.
    + reflexivity.
    + discriminate.
Qed.

(** X22. In the previous version of the store an assignment
    [state\[prop\] = value] never throws on account of the rules: when the
    field has no rule, when the rule rejects the value, and also when the
    rule accepts it but the value handed back by the rule engine is falsy
    ([0], [""], [false], [null], [undefined]), the setter returns normally,
    rolls the assignment back, records nothing and calls no subscriber.
    With no rule it prints [No schema for <prop>]; with an accepted falsy
    value it prints nothing. *)
Theorem legacy_write_rolled_back rule_value s prop value :
  copyable (state s) = true ->
  legacy_unaccepted rule_value s prop value = true ->
  result_of (Legacy.write rule_value (WTop prop value) s) = inr tt /\
  exec (Legacy.write rule_value (WTop prop value)) s = rolled_back s prop value /\
  existsb is_change (events_of (Legacy.write rule_value (WTop prop value) s))
    = false /\
  (obj_get (schema s) prop = None ->
   events_of (Legacy.write rule_value (WTop prop value) s)
     = [EvConsoleLog ("No schema for " ++ prop)%string]) /\
  (forall rule,
     obj_get (schema s) prop = Some (Some rule) ->
     rule_validate rule (strict (opts s)) value = None ->
     events_of (Legacy.write rule_value (WTop prop value) s)
       = [EvValidate prop (strict (opts s)) value]).
Proof.
  unfold copyable. intros Hc Hun.
  destruct (JSON_copy_state (state s)) as [e|snap] eqn:Ec; [discriminate|].
  destruct (legacy_top_setter_rolled_back rule_value s prop value snap Ec Hun)
    as (evs & Hrun & Hch & Hno & Hfalsy).
  unfold exec. cbn [Legacy.write]. rewrite Hrun.
  cbn [store_of events_of result_of fst snd]. auto.
Qed.

Lemma legacy_write_rolled_back_witness :
  state (exec (Legacy.write MoreExamples.as_given (WTop "count" (VNum 0)))
           MoreExamples.tiny_store) = [("count"%string, VNum 7)] /\
  events_of (Legacy.write MoreExamples.as_given (WTop "count" (VNum 0))
               MoreExamples.tiny_store) = [EvValidate "count" false (VNum 0)].
Proof.
  destruct (legacy_write_rolled_back MoreExamples.as_given
              MoreExamples.tiny_store "count" (VNum 0) eq_refl eq_refl)
    as (_ & Hst & _ & _ & Hev).
  split; [rewrite Hst; reflexivity | exact (Hev Examples.number_rule eq_refl eq_refl)].
Defined.

Lemma legacy_top_setter_commit rule_value s prop value snap rule :
  JSON_copy_state (state s) = inr snap ->
  obj_get (schema s) prop = Some (Some rule) ->
  rule_validate rule (strict (opts s)) value = None ->
  truthy (rule_value rule (strict (opts s)) value) = true ->
  Legacy.stateRegisterProxySetter rule_value prop value s =
  log_first (EvValidate prop (strict (opts s)) value)
    (Legacy.executeCallbacks prop (committed s prop value snap)).
Proof.
  intros Hc Hs Hr Ht.
  unfold Legacy.stateRegisterProxySetter, updateUndoHistory, updateRedoHistory,
    copy_arg.
  repeat step. rewrite Hc. repeat step.
  unfold Legacy.validate. repeat step. rewrite Hs. unfold validate_argument.
  repeat step. rewrite obj_get_set_same. cbn [or_undefined]. rewrite Hr.
  repeat step. rewrite Ht. cbn [negb].
  repeat step. rewrite (bind_silent _ _ _ _ _ (addUndo_run _ _)).
  rewrite (bind_silent _ _ _ _ _ (clearRedo_run _)).
  store_simpl. unfold committed.
  destruct (updateHistory s) eqn:Hu; store_simpl; rewrite ?Hu; reflexivity.
Qed.

Lemma legacy_field_setter_commit rule_value s baseProp path prop value snap
      root obj v rule :
  JSON_copy_state (state s) = inr snap ->
  obj_get (state s) baseProp = Some root ->
  navigate root path = inr obj ->
  update_at root path prop value = Some v ->
  obj_get (schema s) baseProp = Some (Some rule) ->
  rule_validate rule (strict (opts s)) v = None ->
  has_null v = false ->
  truthy (rule_value rule (strict (opts s)) v) = true ->
  Legacy.stateFieldProxySetter rule_value baseProp path prop value s =
  log_first (EvValidate baseProp (strict (opts s)) v)
    (Legacy.executeCallbacks baseProp (committed s baseProp v snap)).
Proof.
  intros Hc Hroot Hnav Hup Hs Hr Hn Ht.
  unfold Legacy.stateFieldProxySetter, updateUndoHistory, updateRedoHistory,
    copy_arg.
  repeat step. rewrite Hc. repeat step.
  rewrite Hroot. cbn [or_undefined]. rewrite Hnav. repeat step.
  rewrite Hup. repeat step.
  unfold Legacy.validate. repeat step. rewrite Hs. unfold validate_argument.
  rewrite (stateRegisterProxyGetter_own _ _ _ (obj_get_set_same _ _ _)).
  rewrite (wrap_no_null _ Hn), Hn. repeat step. rewrite Hr.
  repeat step. rewrite Ht. cbn [negb].
  repeat step. rewrite (bind_silent _ _ _ _ _ (addUndo_run _ _)).
  rewrite (bind_silent _ _ _ _ _ (clearRedo_run _)).
  store_simpl. unfold committed.
  destruct (updateHistory s) eqn:Hu; store_simpl; rewrite ?Hu; reflexivity.
Qed.

(** X23. Where the rule accepts the written value and the rule engine
    hands back a truthy value, the previous version of the store and the
    current one leave the same store: the value is in place and the same
    snapshot is pushed on the undo ledger.  The older version returns
    normally, consults the rule once and calls the subscribers of the
    field with the field name and its value only, also for an assignment
    inside the field. *)
Theorem legacy_agrees_on_accepted_writes rule_value s w v rule :
  accepted s w = true ->
  field_after (state s) w = Some v ->
  v <> VNull ->
  obj_get (schema s) (written_field w) = Some (Some rule) ->
  truthy (rule_value rule (strict (opts s)) v) = true ->
  exec (Legacy.write rule_value w) s = exec (write w) s /\
  result_of (Legacy.write rule_value w s) = inr tt /\
  events_of (Legacy.write rule_value w s) =
    EvValidate (written_field w) (strict (opts s)) v
      :: map (fun cb => EvChange cb (written_field w) v None None)
             (subscribers s (written_field w)).
Proof.
  intros Hacc Hf Hv Hs Ht.
  destruct (accepted_inv _ _ Hacc) as (snap & v' & rule' & Hc & Hf' & Hs' & Hr & Hn).
  rewrite Hf in Hf'. injection Hf' as <-.
  rewrite Hs in Hs'. injection Hs' as <-.
  unfold exec at 2. rewrite (write_accepted_run _ _ _ _ Hacc Hc Hf Hv).
  cbn [store_of fst].
  assert (Hcb : Legacy.executeCallbacks (written_field w)
                  (committed s (written_field w) v snap) =
                (committed s (written_field w) v snap,
                 map (fun cb => EvChange cb (written_field w) v None None)
                     (subscribers s (written_field w)), inr tt)).
  { rewrite (legacy_executeCallbacks_run _ _ v).
    - now rewrite subscribers_committed.
    - rewrite state_committed.
      rewrite (stateRegisterProxyGetter_own _ _ _ (obj_get_set_same _ _ _)).
      now apply wrap_not_null. }
  assert (Hrun : Legacy.write rule_value w s =
                 log_first (EvValidate (written_field w) (strict (opts s)) v)
                   (Legacy.executeCallbacks (written_field w)
                      (committed s (written_field w) v snap))).
  { destruct w as [prop value | baseProp path prop value];
      cbn [written_field field_after Legacy.write] in *.
    - injection Hf as <-. now apply legacy_top_setter_commit with (rule := rule).
    - destruct (navigate (or_undefined (obj_get (state s) baseProp)) path)
        as [e|obj] eqn:Hnav; [discriminate|].
      destruct (navigate_container _ _ _ Hnav) as [Hw Hu].
      destruct (obj_get (state s) baseProp) as [root|] eqn:Hroot;
        [|now elim Hu].
      cbn [or_undefined] in *.
      repeat step. rewrite (stateRegisterProxyGetter_own _ _ _ Hroot), Hw.
      repeat step. rewrite Hnav. repeat step.
      now apply legacy_field_setter_commit with (root := root) (obj := obj)
                                                (rule := rule). }
  unfold exec. rewrite Hrun, Hcb.
  cbn [log_first store_of events_of result_of fst snd]. auto.
Qed.

Lemma legacy_agrees_on_accepted_writes_witness :
  exec (Legacy.write MoreExamples.as_given
          (WNested "system" [] (KStr "id") (VNum 4))) Examples.system_store =
  exec (write (WNested "system" [] (KStr "id") (VNum 4))) Examples.system_store.
Proof.
  destruct (legacy_agrees_on_accepted_writes MoreExamples.as_given
              Examples.system_store (WNested "system" [] (KStr "id") (VNum 4))
              (VObj [("id"%string, VNum 4); ("name"%string, VStr "")])
              Examples.system_rule eq_refl eq_refl) as (H & _);
    [discriminate | reflexivity | reflexivity | exact H].
Defined.

(** ** Registration callbacks and the history switch *)

(** X24. [onRegister(cb)] and [onUnregister(cb)] add [cb] behind the
    callbacks already there: a registration whose default value is
    accepted then runs as before and calls [cb] last, and so does
    [unregister]. *)
Theorem lifecycle_callbacks_added_last s cb field rule rest stateObj v :
  copyable (state s) = true ->
  v = or_undefined (obj_get stateObj field) ->
  rule_validate rule (strict (opts s)) v = None ->
  v <> VNull ->
  events_of (register ((field, rule) :: rest) stateObj (exec (onRegister cb) s)) =
    events_of (register ((field, rule) :: rest) stateObj s) ++ [EvRegister cb] /\
  events_of (unregister field (exec (onUnregister cb) s)) =
    events_of (unregister field s) ++ [EvUnregister cb] /\
  state (exec (register ((field, rule) :: rest) stateObj) (exec (onRegister cb) s)) =
    state (exec (register ((field, rule) :: rest) stateObj) s).
Proof.
  intros Hc Hv Hr Hn.
  assert (Hc' : copyable (state (exec (onRegister cb) s)) = true) by exact Hc.
  assert (Hr' : rule_validate rule (strict (opts (exec (onRegister cb) s))) v
                = None) by exact Hr.
  unfold exec at 3 5.
  rewrite (register_accept _ _ _ _ _ _ Hc' Hv Hr' Hn).
  rewrite (register_accept _ _ _ _ _ _ Hc Hv Hr Hn).
  unfold unregister. repeat step. rewrite !executeUnregisterCallbacks_run.
  cbn [store_of events_of result_of fst snd].
  unfold exec, onRegister, onUnregister, subscribers.
  cbn [modify store_of fst]. store_simpl.
  rewrite !map_app. cbn [map]. rewrite app_assoc.
  repeat split.
Qed.

Lemma lifecycle_callbacks_added_last_witness :
  events_of (unregister "system" (exec (onUnregister 4) Examples.system_store))
    = [EvUnregister 4].
Proof.
  destruct (lifecycle_callbacks_added_last Examples.system_store 4 "system"
              Examples.system_rule [] [("system"%string, Examples.SYSTEM_STATE_2)]
              Examples.SYSTEM_STATE_2 eq_refl eq_refl eq_refl)
    as (_ & H & _); [discriminate | exact H].
Defined.

(** X25. While history recording is off, accepted writes are not
    recorded: nothing is pushed on the undo ledger, the redo ledger is
    not emptied, and recording stays off.  Recording is off from the
    construction of the store to the end of the first [register], and
    stays off when a replay stops on an exception. *)
Theorem writes_unrecorded_while_history_off s w :
  updateHistory s = false ->
  accepted s w = true ->
  history_undo (exec (write w) s) = history_undo s /\
  history_redo (exec (write w) s) = history_redo s /\
  updateHistory (exec (write w) s) = false.
Proof.
  intros Hu Hacc.
  destruct (write_accepted_store _ _ Hacc) as (snap & v & _ & _ & ->).
  unfold committed. rewrite Hu. store_simpl. auto.
Qed.

Lemma writes_unrecorded_while_history_off_witness :
  history_undo (exec (write (WTop "a" (VNum 9))) (exec undo Examples.two_then_one))
    = [] /\
  history_redo (exec (write (WTop "a" (VNum 9))) (exec undo Examples.two_then_one))
    = history_redo (exec undo Examples.two_then_one).
Proof.
  destruct (writes_unrecorded_while_history_off (exec undo Examples.two_then_one)
              (WTop "a" (VNum 9)) eq_refl eq_refl) as (Hu & Hr & _).
  split; [rewrite Hu; reflexivity | exact Hr].
Defined.
